(** * Probability calculator: the [Hat] pool and the [experiment] estimator

    A shallow embedding of [probability_calculator.py] and the properties
    of its draw-without-replacement container and Monte-Carlo estimator.

    Modelling choices, all read off the Python source:
    - Python objects that are reachable from an attribute and mutated in
      place (the two lists of a [Hat], the [Hat] instance itself) live in
      a heap of objects addressed by references, so that aliasing and
      [copy.deepcopy] mean what they mean in Python.  A list that only
      ever lives in a local variable of one call ([extracted_balls],
      [all_remaining_balls], [drawn_balls]) is a plain value.
    - Python [int] is [Z]; [range(n)] runs [Z.to_nat n] times, hence not
      at all for a negative [n].
    - The global state of the [random] module is an arbitrary infinite
      tape of naturals with a read cursor; [random.choice] picks the
      element at index [tape cursor mod len].  Every theorem quantifies
      over the tape, hence over every behaviour of the generator.
    - An exception carries the state reached when it was raised.
    - [count_success / num_experiments] is the exact quotient in [Q],
      kept in lowest terms. *)

From stdpp Require Import base strings gmap list.
From Stdlib Require Import ZArith QArith Qreduction Lia.

Open Scope Z_scope.

(** ** Objects, heap and the exception-and-state monad *)

(** References to objects. *)
Abbreviation loc := positive.

Inductive object :=
  | PyList (items : list string)
  | PyHat (contents original_contents : loc).

Inductive exn :=
  | ZeroDivisionError
  | IndexError
  | ValueError
  | AttributeError
  | TypeError.

Record state := State {
  heap : gmap positive object;
  tape : nat → nat;
  cursor : nat
}.

Inductive outcome (A : Type) :=
  | Return (a : A)
  | Raise (e : exn).
Arguments Return {A} a.
Arguments Raise {A} e.

Definition M (A : Type) : Type := state → outcome A * state.

Definition ret {A} (a : A) : M A := λ σ, (Return a, σ).

Definition raise {A} (e : exn) : M A := λ σ, (Raise e, σ).

Definition bind {A B} (m : M A) (f : A → M B) : M B :=
  λ σ, match m σ with
       | (Return a, σ') => f a σ'
       | (Raise e, σ') => (Raise e, σ')
       end.

Notation "'let!' x := m 'in' k" := (bind m (λ x, k))
  (at level 10, x name, m at level 100, k at level 200, only parsing).
Notation "'run!' m 'in' k" := (bind m (λ _, k))
  (at level 10, m at level 100, k at level 200, only parsing).

Definition state_upd_heap (f : gmap positive object → gmap positive object)
    (σ : state) : state :=
  {| heap := f (heap σ); tape := tape σ; cursor := cursor σ |}.

(** Creating an object: a reference that no live object has. *)
Definition alloc (o : object) : M loc :=
  λ σ, let l := fresh (dom (heap σ)) in
       (Return l, state_upd_heap <[l := o]> σ).

(** Reading a list through a reference; anything that is not a list has
    none of the list methods. *)
Definition read_list (l : loc) : M (list string) :=
  λ σ, match heap σ !! l with
       | Some (PyList xs) => (Return xs, σ)
       | _ => (Raise AttributeError, σ)
       end.

Definition write_list (l : loc) (xs : list string) : M unit :=
  λ σ, (Return tt, state_upd_heap <[l := PyList xs]> σ).

(** [self.contents] and [self.original_contents]. *)
Definition get_contents (self : loc) : M loc :=
  λ σ, match heap σ !! self with
       | Some (PyHat c _) => (Return c, σ)
       | _ => (Raise AttributeError, σ)
       end.

Definition get_original_contents (self : loc) : M loc :=
  λ σ, match heap σ !! self with
       | Some (PyHat _ o) => (Return o, σ)
       | _ => (Raise AttributeError, σ)
       end.

(** ** The list methods and library calls the program uses *)

(** [lst.append(x)] *)
Definition list_append (l : loc) (x : string) : M unit :=
  let! xs := read_list l in write_list l (xs ++ [x]).

(** [lst.clear()] *)
Definition list_clear (l : loc) : M unit :=
  let! _ := read_list l in write_list l [].

(** [lst[:]]: a new list with the same items. *)
Definition list_slice_all (l : loc) : M (list string) := read_list l.

(** What [lst.remove(x)] leaves: the list without the first occurrence
    of [x], if there is one. *)
Fixpoint remove_first (x : string) (xs : list string) : option (list string) :=
  match xs with
  | [] => None
  | y :: ys => if decide (x = y) then Some ys
               else match remove_first x ys with
                    | Some ys' => Some (y :: ys')
                    | None => None
                    end
  end.

(** [lst.remove(x)]: [ValueError] when [x] is not in the list. *)
Definition list_remove (l : loc) (x : string) : M unit :=
  let! xs := read_list l in
  match remove_first x xs with
  | Some xs' => write_list l xs'
  | None => raise ValueError
  end.

(** The generator's [_randbelow(n)]: the next number of the tape,
    reduced below [n]. *)
Definition randbelow (n : nat) : M nat :=
  λ σ, (Return (tape σ (cursor σ) `mod` n)%nat,
        {| heap := heap σ; tape := tape σ; cursor := S (cursor σ) |}).

(** [random.choice(seq)]: [IndexError] on an empty sequence. *)
Definition random_choice (seq : list string) : M string :=
  match seq with
  | [] => raise IndexError
  | x :: _ => let! i := randbelow (length seq) in ret (nth i seq x)
  end.

(** [copy.deepcopy(hat)]: a new instance whose attributes are new lists
    with the same strings.  The memo of [deepcopy] keeps sharing: were
    both attributes one list, so would they be in the copy. *)
Definition deepcopy (hat : loc) : M loc :=
  let! c := get_contents hat in
  let! o := get_original_contents hat in
  let! xs := read_list c in
  let! c' := alloc (PyList xs) in
  let! o' := (if decide (o = c) then ret c'
              else (let! ys := read_list o in alloc (PyList ys))) in
  alloc (PyHat c' o').

(** ** class Hat *)

(** The inner loop of [__init__]: [for _ in range(count): append]. *)
Fixpoint append_times (n : nat) (c : loc) (color : string) : M unit :=
  match n with
  | O => ret tt
  | S n' => run! list_append c color in append_times n' c color
  end.

(** The outer loop of [__init__] over [kwargs.items()], in insertion
    order. *)
Fixpoint fill_contents (items : list (string * Z)) (c : loc) : M unit :=
  match items with
  | [] => ret tt
  | (color, count) :: rest =>
      run! append_times (Z.to_nat count) c color in fill_contents rest c
  end.

(** The body of [__init__], lines 19 to 31, on the items of [kwargs] in
    insertion order. *)
Definition Hat_init_body (kwargs : list (string * Z)) : M loc :=
  let! c := alloc (PyList []) in
  run! fill_contents kwargs c in
  let! snapshot := list_slice_all c in
  let! o := alloc (PyList snapshot) in
  alloc (PyHat c o).

(** The call [Hat(red=5, blue=2)], also with the keywords unpacked
    from a dict, the keyword arguments given as their items in insertion
    order.  Python binds
    them to the parameters of [__init__(self, **kwargs)] before the body
    runs: a keyword named [self] collides with the first parameter and
    the call raises [TypeError]; every other keyword goes to [kwargs].
    The instance made for the failed call is referenced by nothing and
    is not kept. *)
Definition Hat_init (kwargs : list (string * Z)) : M loc :=
  if decide ("self"%string ∈ kwargs.*1) then raise TypeError
  else Hat_init_body kwargs.

(** The selection loop of [draw]: [for _ in range(num_balls)]. *)
Fixpoint draw_loop (n : nat) (self : loc) (extracted_balls : list string)
    : M (list string) :=
  match n with
  | O => ret extracted_balls
  | S n' =>
      let! c := get_contents self in
      let! xs := read_list c in
      let! random_ball := random_choice xs in
      let! c := get_contents self in
      run! list_remove c random_ball in
      draw_loop n' self (extracted_balls ++ [random_ball])
  end.

(** [Hat.draw(self, num_balls)] *)
Definition draw (self : loc) (num_balls : Z) : M (list string) :=
  let! c := get_contents self in
  let! xs := read_list c in
  if Z.of_nat (length xs) <=? num_balls then
    let! all_remaining_balls := list_slice_all c in
    run! list_clear c in
    ret all_remaining_balls
  else
    draw_loop (Z.to_nat num_balls) self [].

(** ** experiment *)

(** The tally loop: [drawn_balls_count[ball] = drawn_balls_count.get(ball, 0) + 1]. *)
Definition tally (drawn_balls : list string) : gmap string Z :=
  foldl (λ counts ball, <[ball := default 0 (counts !! ball) + 1]> counts)
        ∅ drawn_balls.

(** The checking loop with its [break], over the items of
    [expected_balls]. *)
Fixpoint check_items (items : list (string * Z))
    (drawn_balls_count : gmap string Z) : bool :=
  match items with
  | [] => true
  | (color, expected_amount) :: rest =>
      if default 0 (drawn_balls_count !! color) <? expected_amount then false
      else check_items rest drawn_balls_count
  end.

Definition meets_expectations (expected_balls : gmap string Z)
    (drawn_balls : list string) : bool :=
  check_items (map_to_list expected_balls) (tally drawn_balls).

(** Lines 98 to 102: copy the hat and draw from the copy. *)
Definition draw_from_copy (hat : loc) (num_balls_drawn : Z) : M (list string) :=
  let! hat_copy := deepcopy hat in
  draw hat_copy num_balls_drawn.

(** One pass through the body of the trial loop. *)
Definition experiment_body (hat : loc) (expected_balls : gmap string Z)
    (num_balls_drawn : Z) (count_success : Z) : M Z :=
  let! drawn_balls := draw_from_copy hat num_balls_drawn in
  if meets_expectations expected_balls drawn_balls
  then ret (count_success + 1)
  else ret count_success.

(** [for _ in range(num_experiments)] *)
Fixpoint experiment_loop (n : nat) (hat : loc) (expected_balls : gmap string Z)
    (num_balls_drawn : Z) (count_success : Z) : M Z :=
  match n with
  | O => ret count_success
  | S n' =>
      let! count_success' :=
        experiment_body hat expected_balls num_balls_drawn count_success in
      experiment_loop n' hat expected_balls num_balls_drawn count_success'
  end.

(** [a / b] on two [int]s. *)
Definition true_divide (a b : Z) : M Q :=
  if b =? 0 then raise ZeroDivisionError
  else ret (Qred (inject_Z a / inject_Z b)).

Definition experiment (hat : loc) (expected_balls : gmap string Z)
    (num_balls_drawn num_experiments : Z) : M Q :=
  let! count_success :=
    experiment_loop (Z.to_nat num_experiments) hat expected_balls
                    num_balls_drawn 0 in
  true_divide count_success num_experiments.

(** ** Observing a hat in a state *)

Definition list_at (σ : state) (l : loc) : option (list string) :=
  match heap σ !! l with
  | Some (PyList xs) => Some xs
  | _ => None
  end.

(** The value of [hat.contents] and of [hat.original_contents]. *)
Definition hat_contents (σ : state) (hat : loc) : option (list string) :=
  match heap σ !! hat with
  | Some (PyHat c _) => list_at σ c
  | _ => None
  end.

Definition hat_original_contents (σ : state) (hat : loc) : option (list string) :=
  match heap σ !! hat with
  | Some (PyHat _ o) => list_at σ o
  | _ => None
  end.

(** [hat] refers to a [Hat] instance whose two attributes are lists. *)
Definition is_hat (σ : state) (hat : loc) : Prop :=
  is_Some (hat_contents σ hat) ∧ is_Some (hat_original_contents σ hat).

Definition empty_state (t : nat → nat) : state :=
  {| heap := ∅; tape := t; cursor := 0%nat |}.

(** The number of balls of one colour in a sequence of balls. *)
Definition occurrences (color : string) (balls : list string) : nat :=
  length (filter (λ b, b = color) balls).

(** What [__init__] puts into the hat: [count] balls per colour, none
    for a count below one. *)
Definition expand (kwargs : list (string * Z)) : list string :=
  flat_map (λ '(color, count), replicate (Z.to_nat count) color) kwargs.

(** What a call [draw(num_balls)] can return from a hat that holds
    [xs]: some of the balls of [xs], as many as asked for or as there
    are, and all of them in their order when it is asked for all. *)
Definition drawable (xs : list string) (num_balls : Z) (d : list string) : Prop :=
  (∃ rest, d ++ rest ≡ₚ xs) ∧
  length d = (Z.to_nat num_balls `min` length xs)%nat ∧
  (Z.of_nat (length xs) ≤ num_balls → d = xs).

(** One [draw] call on [self], whatever its argument and outcome. *)
Definition draw_step (self : loc) (σ σ' : state) : Prop :=
  ∃ num_balls r, draw self num_balls σ = (r, σ').

(** One [experiment] call with [hat] as its reference hat. *)
Definition experiment_step (hat : loc) (σ σ' : state) : Prop :=
  ∃ expected_balls num_balls_drawn num_experiments r,
    experiment hat expected_balls num_balls_drawn num_experiments σ = (r, σ').

(** One operation of the module on a hat. *)
Definition hat_step (hat : loc) (σ σ' : state) : Prop :=
  draw_step hat σ σ' ∨ experiment_step hat σ σ'.

(** A hat to run the program on: [Hat(red=2, blue=1)], built with the
    generator tape 0, 1, 2, ...; the instance is the third object. *)
Definition sample_kwargs : list (string * Z) :=
  [("red"%string, 2); ("blue"%string, 1)].

Definition sample_state : state :=
  snd (Hat_init sample_kwargs (empty_state (λ n, n))).

Definition sample_hat : loc := 3%positive.

(** The hat of [main]: [Hat(black=6, red=4, green=3)], built with the
    generator tape 0, 8, 18, 30, ... *)
Definition main_state : state :=
  snd (Hat_init [("black"%string, 6); ("red"%string, 4); ("green"%string, 3)]
                (empty_state (λ n, (n * n + 7 * n)%nat))).

(** How often [draw(num_balls)] calls the generator on a hat of [len]
    balls: once per ball in the selection loop, which runs only when
    fewer balls are asked for than there are. *)
Definition generator_calls (num_balls : Z) (len : nat) : nat :=
  if decide (0 ≤ num_balls < Z.of_nat len) then Z.to_nat num_balls else 0%nat.

(** [main]: the value it returns here is the one it hands to [print]. *)
Definition main : M Q :=
  let! hat := Hat_init [("black"%string, 6); ("red"%string, 4);
                        ("green"%string, 3)] in
  let! probability :=
    experiment hat {[ "red"%string := 2; "green"%string := 1 ]} 5 2000 in
  ret probability.

(** * Properties *)

(** ** The program at work *)

Example Hat_init_sample :
  fst (Hat_init sample_kwargs (empty_state (λ n, n))) = Return sample_hat ∧
  hat_contents sample_state sample_hat = Some ["red"; "red"; "blue"]%string ∧
  hat_original_contents sample_state sample_hat
    = Some ["red"; "red"; "blue"]%string.
Proof. repeat split. Qed.

Example draw_two_of_sample :
  fst (draw sample_hat 2 sample_state) = Return ["red"; "blue"]%string ∧
  hat_contents (snd (draw sample_hat 2 sample_state)) sample_hat
    = Some ["red"]%string ∧
  hat_original_contents (snd (draw sample_hat 2 sample_state)) sample_hat
    = Some ["red"; "red"; "blue"]%string.
Proof. repeat split. Qed.

Example tally_sample :
  tally ["red"; "blue"; "red"]%string
  = {[ "red"%string := 2; "blue"%string := 1 ]}.
Proof. by vm_compute. Qed.

(** [main] with 40 trials instead of 2000. *)
Example experiment_main :
  fst (experiment 3%positive {[ "red"%string := 2; "green"%string := 1 ]}
                  5 40 main_state)
  = Return (1 # 4)%Q.
Proof. by vm_compute. Qed.

(** A negative number of trials runs no trial and divides 0. *)
Example experiment_negative_trials :
  experiment sample_hat {[ "red"%string := 2 ]} 2 (-4) sample_state
  = (Return 0%Q, sample_state).
Proof. reflexivity. Qed.

(** ** Running the monad *)

Lemma bind_Return {A B} (m : M A) (f : A → M B) σ a σ' :
  m σ = (Return a, σ') → bind m f σ = f a σ'.
Proof. unfold bind. by intros ->. Qed.

Lemma bind_Raise {A B} (m : M A) (f : A → M B) σ e σ' :
  m σ = (Raise e, σ') → bind m f σ = (Raise e, σ').
Proof. unfold bind. by intros ->. Qed.

Lemma get_contents_eq σ self c o :
  heap σ !! self = Some (PyHat c o) → get_contents self σ = (Return c, σ).
Proof. unfold get_contents. by intros ->. Qed.

Lemma get_original_contents_eq σ self c o :
  heap σ !! self = Some (PyHat c o) →
  get_original_contents self σ = (Return o, σ).
Proof. unfold get_original_contents. by intros ->. Qed.

Lemma read_list_eq σ l xs :
  heap σ !! l = Some (PyList xs) → read_list l σ = (Return xs, σ).
Proof. unfold read_list. by intros ->. Qed.

Ltac step H := erewrite bind_Return by (exact H).

(** ** Lists *)

Lemma remove_first_elem x xs :
  x ∈ xs →
  ∃ xs', remove_first x xs = Some xs' ∧ xs ≡ₚ x :: xs' ∧ xs' `sublist_of` xs.
Proof.
  induction xs as [|y ys IH]; intros Hin; [by apply elem_of_nil in Hin|].
  simpl. destruct (decide (x = y)) as [->|Hne].
  - exists ys. split; [done|]. split; [done|]. by apply sublist_cons.
  - apply elem_of_cons in Hin as [?|Hin]; [done|].
    destruct (IH Hin) as (ys' & -> & Hp & Hs).
    exists (y :: ys'). split; [done|]. split.
    + rewrite Hp. apply Permutation_swap.
    + by apply sublist_skip.
Qed.

Lemma nth_elem (i : nat) (xs : list string) d :
  (i < length xs)%nat → nth i xs d ∈ xs.
Proof. intros Hi. apply list_elem_of_In. by apply nth_In. Qed.

Lemma occurrences_app c xs ys :
  occurrences c (xs ++ ys) = (occurrences c xs + occurrences c ys)%nat.
Proof. unfold occurrences. by rewrite filter_app, length_app. Qed.

Lemma occurrences_perm c xs ys :
  xs ≡ₚ ys → occurrences c xs = occurrences c ys.
Proof. unfold occurrences. by intros ->. Qed.

Lemma occurrences_cons c x xs :
  occurrences c (x :: xs) =
  ((if decide (x = c) then 1 else 0) + occurrences c xs)%nat.
Proof. unfold occurrences. rewrite filter_cons. by destruct (decide (x = c)). Qed.

Lemma occurrences_replicate color n c0 :
  occurrences color (replicate n c0) = if decide (c0 = color) then n else 0%nat.
Proof.
  induction n as [|m IHm]; simpl.
  - by destruct (decide (c0 = color)).
  - rewrite occurrences_cons, IHm. by destruct (decide (c0 = color)).
Qed.

Lemma occurrences_expand kwargs color :
  occurrences color (expand kwargs) =
  sum_list_with (λ '(c, n), if decide (c = color)
                            then Z.to_nat (Z.max n 0) else 0%nat) kwargs.
Proof.
  induction kwargs as [|[c0 n] rest IH]; [done|].
  change (expand ((c0, n) :: rest))
    with (replicate (Z.to_nat n) c0 ++ expand rest).
  rewrite occurrences_app, occurrences_replicate, IH. simpl.
  by replace (Z.to_nat (Z.max n 0)) with (Z.to_nat n) by lia.
Qed.

(** The tally holds, for each colour, how often it was drawn; a colour
    never drawn has no entry, which [.get(color, 0)] reads as 0. *)
Lemma tally_acc drawn : ∀ (counts : gmap string Z) c,
  default 0 (foldl (λ counts ball,
                      <[ball := default 0 (counts !! ball) + 1]> counts)
                   counts drawn !! c)
  = default 0 (counts !! c) + Z.of_nat (occurrences c drawn).
Proof.
  induction drawn as [|b bs IH]; intros counts c; simpl.
  - unfold occurrences. simpl. lia.
  - rewrite IH, occurrences_cons. destruct (decide (b = c)) as [->|Hne].
    + rewrite lookup_insert_eq. simpl. lia.
    + rewrite lookup_insert_ne by done. simpl. lia.
Qed.

Lemma tally_get drawn c :
  default 0 (tally drawn !! c) = Z.of_nat (occurrences c drawn).
Proof. unfold tally. rewrite tally_acc, lookup_empty. simpl. lia. Qed.

Lemma check_items_true items counts :
  check_items items counts = true ↔
  ∀ c n, (c, n) ∈ items → n ≤ default 0 (counts !! c).
Proof.
  induction items as [|[color amount] rest IH]; simpl.
  - split; [|done]. intros _ c n Hin. by apply elem_of_nil in Hin.
  - destruct (Z.ltb_spec (default 0 (counts !! color)) amount) as [Hlt|Hge].
    + split; [done|]. intros Hall.
      specialize (Hall color amount (list_elem_of_here _ _)). lia.
    + rewrite IH. split.
      * intros Hall c n Hin. apply elem_of_cons in Hin as [[= -> ->]|Hin]; auto.
      * intros Hall c n Hin. apply Hall. by apply list_elem_of_further.
Qed.

Lemma meets_expectations_spec expected_balls drawn_balls :
  meets_expectations expected_balls drawn_balls = true ↔
  ∀ color amount, expected_balls !! color = Some amount →
                  amount ≤ Z.of_nat (occurrences color drawn_balls).
Proof.
  unfold meets_expectations. rewrite check_items_true. split.
  - intros Hall c n Hc. rewrite <- tally_get. apply Hall.
    by apply elem_of_map_to_list.
  - intros Hall c n Hin. rewrite tally_get. apply Hall.
    by apply elem_of_map_to_list in Hin.
Qed.

(** ** Hat.draw *)

Lemma random_choice_eq xs σ :
  xs ≠ [] →
  ∃ b, b ∈ xs ∧
       random_choice xs σ =
       (Return b, {| heap := heap σ; tape := tape σ; cursor := S (cursor σ) |}).
Proof.
  destruct xs as [|x xs']; [done|]. intros _.
  exists (nth (tape σ (cursor σ) `mod` length (x :: xs'))%nat (x :: xs') x).
  split; [|done]. apply nth_elem. apply Nat.mod_upper_bound. simpl. lia.
Qed.

Lemma list_remove_eq σ l xs x xs' :
  heap σ !! l = Some (PyList xs) → remove_first x xs = Some xs' →
  list_remove l x σ = (Return tt, state_upd_heap <[l := PyList xs']> σ).
Proof.
  intros Hl Hx. unfold list_remove. step (read_list_eq _ _ _ Hl).
  by rewrite Hx.
Qed.

Lemma list_clear_eq σ l xs :
  heap σ !! l = Some (PyList xs) →
  list_clear l σ = (Return tt, state_upd_heap <[l := PyList []]> σ).
Proof. intros Hl. unfold list_clear. by step (read_list_eq _ _ _ Hl). Qed.

Lemma list_append_eq σ l xs x :
  heap σ !! l = Some (PyList xs) →
  list_append l x σ = (Return tt, state_upd_heap <[l := PyList (xs ++ [x])]> σ).
Proof. intros Hl. unfold list_append. by step (read_list_eq _ _ _ Hl). Qed.

(** The selection loop touches nothing but the list [self.contents]:
    what it returns and what it leaves there are together the balls that
    were there, and what it leaves is a sublist of what was there. *)
Lemma draw_loop_spec n : ∀ self acc σ c o xs,
  heap σ !! self = Some (PyHat c o) →
  heap σ !! c = Some (PyList xs) →
  (n ≤ length xs)%nat →
  ∃ d xs',
    draw_loop n self acc σ =
      (Return (acc ++ d),
       {| heap := <[c := PyList xs']> (heap σ); tape := tape σ;
          cursor := (cursor σ + n)%nat |}) ∧
    d ++ xs' ≡ₚ xs ∧ xs' `sublist_of` xs ∧ length d = n.
Proof.
  induction n as [|n IH]; intros self acc σ c o xs Hself Hc Hn.
  - exists [], xs. simpl. unfold ret. rewrite app_nil_r, Nat.add_0_r.
    rewrite insert_id by done. by destruct σ.
  - assert (xs ≠ []) as Hne by (intros ->; simpl in Hn; lia).
    destruct (random_choice_eq xs σ Hne) as (b & Hb & Hchoice).
    destruct (remove_first_elem b xs Hb) as (xs1 & Hrm & Hperm & Hsub).
    set (σ1 := {| heap := heap σ; tape := tape σ; cursor := S (cursor σ) |}).
    set (σ2 := state_upd_heap <[c := PyList xs1]> σ1).
    assert (self ≠ c) as Hsc by (intros ->; congruence).
    assert (length xs = S (length xs1)) as Hlen by (by rewrite Hperm).
    destruct (IH self (acc ++ [b]) σ2 c o xs1) as (d & xs' & Hloop & Hp' & Hs' & Hd).
    { simpl. by rewrite lookup_insert_ne. }
    { simpl. by rewrite lookup_insert_eq. }
    { lia. }
    exists (b :: d), xs'. split; [|split; [|split]].
    + simpl. step (get_contents_eq _ _ _ _ Hself).
      step (read_list_eq _ _ _ Hc). step Hchoice.
      erewrite bind_Return by (by apply (get_contents_eq σ1 self c o)).
      erewrite bind_Return by (by apply (list_remove_eq σ1 c xs b xs1)).
      fold σ2. rewrite Hloop. simpl. rewrite insert_insert_eq.
      rewrite <- app_assoc. simpl. do 3 f_equal. lia.
    + simpl. by rewrite Hp', Hperm.
    + etrans; [exact Hs'|exact Hsub].
    + simpl. by rewrite Hd.
Qed.

(** What every [draw] call does. *)
Lemma draw_spec self num_balls σ c o xs :
  heap σ !! self = Some (PyHat c o) →
  heap σ !! c = Some (PyList xs) →
  ∃ d xs' σ',
    draw self num_balls σ = (Return d, σ') ∧
    heap σ' = <[c := PyList xs']> (heap σ) ∧ tape σ' = tape σ ∧
    d ++ xs' ≡ₚ xs ∧ xs' `sublist_of` xs ∧
    length d = (Z.to_nat num_balls `min` length xs)%nat ∧
    (Z.of_nat (length xs) ≤ num_balls → d = xs ∧ xs' = []).
Proof.
  intros Hself Hc. unfold draw.
  step (get_contents_eq _ _ _ _ Hself). step (read_list_eq _ _ _ Hc).
  destruct (Z.leb_spec (Z.of_nat (length xs)) num_balls) as [Hge|Hlt].
  - exists xs, [], (state_upd_heap <[c := PyList []]> σ).
    unfold list_slice_all.
    step (read_list_eq _ _ _ Hc). step (list_clear_eq _ _ _ Hc).
    split; [done|]. split; [done|]. split; [done|].
    split; [by rewrite app_nil_r|]. split; [apply sublist_nil_l|].
    split; [lia|done].
  - destruct (draw_loop_spec (Z.to_nat num_balls) self [] σ c o xs Hself Hc)
      as (d & xs' & Hloop & Hp & Hs & Hd); [lia|].
    eexists d, xs', _. split; [exact Hloop|]. simpl.
    split; [done|]. split; [done|]. split; [done|]. split; [done|].
    split; [lia|lia].
Qed.

(** ** Allocation and copy.deepcopy *)

Lemma alloc_fresh o σ :
  ∃ l, heap σ !! l = None ∧
       alloc o σ = (Return l, state_upd_heap <[l := o]> σ).
Proof.
  exists (fresh (dom (heap σ))). split; [|done].
  apply not_elem_of_dom. apply is_fresh.
Qed.

Lemma state_upd_heap_id σ l o :
  heap σ !! l = Some o → state_upd_heap <[l := o]> σ = σ.
Proof. intros Hl. destruct σ. unfold state_upd_heap. simpl in *. by rewrite insert_id. Qed.

(** The copy is made of new objects only and holds the same balls;
    every object that was there is left as it was. *)
Lemma deepcopy_spec hat σ c o xs ys :
  heap σ !! hat = Some (PyHat c o) →
  heap σ !! c = Some (PyList xs) →
  heap σ !! o = Some (PyList ys) →
  ∃ hat' c' o' σ',
    deepcopy hat σ = (Return hat', σ') ∧
    heap σ ⊆ heap σ' ∧ tape σ' = tape σ ∧ cursor σ' = cursor σ ∧
    heap σ' !! hat' = Some (PyHat c' o') ∧
    heap σ' !! c' = Some (PyList xs) ∧
    heap σ' !! o' = Some (PyList ys) ∧
    heap σ !! c' = None.
Proof.
  intros Hhat Hc Ho. unfold deepcopy.
  step (get_contents_eq _ _ _ _ Hhat).
  step (get_original_contents_eq _ _ _ _ Hhat).
  step (read_list_eq _ _ _ Hc).
  destruct (alloc_fresh (PyList xs) σ) as (c' & Hc' & Hac). step Hac.
  set (σ1 := state_upd_heap <[c' := PyList xs]> σ).
  assert (heap σ ⊆ heap σ1) as H01 by (by apply insert_subseteq).
  destruct (decide (o = c)) as [->|Hoc].
  - assert (ys = xs) as -> by congruence.
    unfold ret at 1. unfold bind at 1.
    destruct (alloc_fresh (PyHat c' c') σ1) as (h' & Hh' & Hah). rewrite Hah.
    assert (h' ≠ c') as Hne.
    { intros ->. simpl in Hh'. by rewrite lookup_insert_eq in Hh'. }
    exists h', c', c', (state_upd_heap <[h' := PyHat c' c']> σ1).
    split; [done|]. simpl. split.
    { etrans; [exact H01|]. by apply insert_subseteq. }
    split; [done|]. split; [done|]. rewrite lookup_insert_eq.
    rewrite lookup_insert_ne by done. rewrite lookup_insert_eq. done.
  - assert (heap σ1 !! o = Some (PyList ys)) as Ho1.
    { by apply (lookup_weaken (heap σ)). }
    destruct (alloc_fresh (PyList ys) σ1) as (o' & Ho' & Hao).
    set (σ2 := state_upd_heap <[o' := PyList ys]> σ1).
    assert ((let! ys := read_list o in alloc (PyList ys)) σ1 = (Return o', σ2))
      as Hinner by (by step (read_list_eq _ _ _ Ho1)).
    step Hinner.
    destruct (alloc_fresh (PyHat c' o') σ2) as (h' & Hh' & Hah). rewrite Hah.
    assert (o' ≠ c') as Hne1.
    { intros ->. simpl in Ho'. by rewrite lookup_insert_eq in Ho'. }
    assert (h' ≠ o') as Hne2.
    { intros ->. simpl in Hh'. by rewrite lookup_insert_eq in Hh'. }
    assert (h' ≠ c') as Hne3.
    { intros ->. simpl in Hh'.
      by rewrite lookup_insert_ne, lookup_insert_eq in Hh'. }
    exists h', c', o', (state_upd_heap <[h' := PyHat c' o']> σ2).
    split; [done|]. simpl. split.
    { etrans; [exact H01|]. etrans; [|by apply insert_subseteq].
      by apply insert_subseteq. }
    split; [done|]. split; [done|]. rewrite lookup_insert_eq.
    rewrite !(lookup_insert_ne _ h') by done. rewrite lookup_insert_eq.
    rewrite lookup_insert_ne by done. rewrite lookup_insert_eq. done.
Qed.

(** ** Hat.__init__ *)

Lemma append_times_eq n : ∀ c color σ xs,
  heap σ !! c = Some (PyList xs) →
  append_times n c color σ =
  (Return tt, state_upd_heap <[c := PyList (xs ++ replicate n color)]> σ).
Proof.
  induction n as [|n IH]; intros c color σ xs Hc; simpl.
  - unfold ret. rewrite app_nil_r. by rewrite state_upd_heap_id.
  - step (list_append_eq _ _ _ color Hc).
    rewrite (IH _ _ _ (xs ++ [color])) by (simpl; by rewrite lookup_insert_eq).
    unfold state_upd_heap. simpl. rewrite insert_insert_eq.
    by rewrite <- app_assoc.
Qed.

Lemma fill_contents_eq items : ∀ c σ xs,
  heap σ !! c = Some (PyList xs) →
  fill_contents items c σ =
  (Return tt, state_upd_heap <[c := PyList (xs ++ expand items)]> σ).
Proof.
  induction items as [|[color count] rest IH]; intros c σ xs Hc; simpl.
  - unfold ret. rewrite app_nil_r. by rewrite state_upd_heap_id.
  - step (append_times_eq (Z.to_nat count) _ color _ _ Hc).
    rewrite (IH _ _ (xs ++ replicate (Z.to_nat count) color))
      by (simpl; by rewrite lookup_insert_eq).
    unfold state_upd_heap. simpl. rewrite insert_insert_eq.
    by rewrite <- app_assoc.
Qed.

(** Without a keyword named [self] construction returns.  It makes
    three new objects, the instance and two separate lists which both
    hold [expand kwargs]. *)
Lemma Hat_init_spec kwargs σ :
  "self"%string ∉ kwargs.*1 →
  ∃ self c o σ',
    Hat_init kwargs σ = (Return self, σ') ∧
    heap σ ⊆ heap σ' ∧ tape σ' = tape σ ∧ cursor σ' = cursor σ ∧
    heap σ' !! self = Some (PyHat c o) ∧
    heap σ' !! c = Some (PyList (expand kwargs)) ∧
    heap σ' !! o = Some (PyList (expand kwargs)) ∧
    c ≠ o.
Proof.
  intros Hkw. unfold Hat_init. rewrite decide_False by done.
  unfold Hat_init_body.
  destruct (alloc_fresh (PyList []) σ) as (c & Hc & Hac). step Hac.
  set (σ1 := state_upd_heap <[c := PyList []]> σ).
  assert (heap σ1 !! c = Some (PyList [])) as Hc1
    by (simpl; by rewrite lookup_insert_eq).
  step (fill_contents_eq kwargs c σ1 [] Hc1). simpl.
  set (σ2 := state_upd_heap <[c := PyList (expand kwargs)]> σ1).
  assert (heap σ2 !! c = Some (PyList (expand kwargs))) as Hc2
    by (simpl; by rewrite lookup_insert_eq).
  unfold list_slice_all. step (read_list_eq _ _ _ Hc2).
  destruct (alloc_fresh (PyList (expand kwargs)) σ2) as (o & Ho & Hao). step Hao.
  set (σ3 := state_upd_heap <[o := PyList (expand kwargs)]> σ2).
  destruct (alloc_fresh (PyHat c o) σ3) as (self & Hs & Has). rewrite Has.
  assert (o ≠ c) as Hne1 by (intros ->; congruence).
  assert (self ≠ o) as Hne2.
  { intros ->. simpl in Hs. by rewrite lookup_insert_eq in Hs. }
  assert (self ≠ c) as Hne3.
  { intros ->. simpl in Hs.
    by rewrite lookup_insert_ne, lookup_insert_eq in Hs. }
  exists self, c, o, (state_upd_heap <[self := PyHat c o]> σ3).
  split; [done|]. simpl. split.
  { simpl in Hs, Ho.
    etrans; [|apply insert_subseteq; exact Hs].
    etrans; [|apply insert_subseteq; exact Ho].
    rewrite insert_insert_eq. by apply insert_subseteq. }
  split; [done|]. split; [done|]. rewrite lookup_insert_eq.
  rewrite !(lookup_insert_ne _ self) by done. rewrite lookup_insert_eq.
  rewrite lookup_insert_ne by done. rewrite lookup_insert_eq. done.
Qed.

(** A call that returned was given no keyword named [self]. *)
Lemma Hat_init_Return_inv kwargs σ self σ' :
  Hat_init kwargs σ = (Return self, σ') → "self"%string ∉ kwargs.*1.
Proof.
  unfold Hat_init. destruct (decide ("self"%string ∈ kwargs.*1)); [|done].
  discriminate.
Qed.

(** ** experiment *)

Lemma hat_contents_Some σ hat xs :
  hat_contents σ hat = Some xs ↔
  ∃ c o, heap σ !! hat = Some (PyHat c o) ∧ heap σ !! c = Some (PyList xs).
Proof.
  unfold hat_contents, list_at. split.
  - destruct (heap σ !! hat) as [[|c o]|] eqn:Hh; try done.
    destruct (heap σ !! c) as [[ys|]|] eqn:Hc; try done.
    intros [= ->]. by exists c, o.
  - intros (c & o & -> & ->). done.
Qed.

Lemma hat_original_contents_Some σ hat ys :
  hat_original_contents σ hat = Some ys ↔
  ∃ c o, heap σ !! hat = Some (PyHat c o) ∧ heap σ !! o = Some (PyList ys).
Proof.
  unfold hat_original_contents, list_at. split.
  - destruct (heap σ !! hat) as [[|c o]|] eqn:Hh; try done.
    destruct (heap σ !! o) as [[xs|]|] eqn:Ho; try done.
    intros [= ->]. by exists c, o.
  - intros (c & o & -> & ->). done.
Qed.

Lemma is_hat_inv σ hat :
  is_hat σ hat →
  ∃ c o xs ys, heap σ !! hat = Some (PyHat c o) ∧
               heap σ !! c = Some (PyList xs) ∧
               heap σ !! o = Some (PyList ys).
Proof.
  intros [[xs Hxs] [ys Hys]].
  apply hat_contents_Some in Hxs as (c & o & Hh & Hc).
  apply hat_original_contents_Some in Hys as (c2 & o2 & Hh2 & Ho).
  assert (o2 = o) as -> by congruence. by exists c, o, xs, ys.
Qed.

(** Objects that are kept as they are keep a hat what it is. *)
Lemma hat_contents_weaken σ σ' hat xs :
  heap σ ⊆ heap σ' → hat_contents σ hat = Some xs →
  hat_contents σ' hat = Some xs.
Proof.
  intros Hsub. rewrite !hat_contents_Some. intros (c & o & Hh & Hc).
  exists c, o. split; by apply (lookup_weaken (heap σ)).
Qed.

Lemma hat_original_contents_weaken σ σ' hat ys :
  heap σ ⊆ heap σ' → hat_original_contents σ hat = Some ys →
  hat_original_contents σ' hat = Some ys.
Proof.
  intros Hsub. rewrite !hat_original_contents_Some. intros (c & o & Hh & Ho).
  exists c, o. split; by apply (lookup_weaken (heap σ)).
Qed.

Lemma is_hat_weaken σ σ' hat :
  heap σ ⊆ heap σ' → is_hat σ hat → is_hat σ' hat.
Proof.
  intros Hsub [[xs Hxs] [ys Hys]]. split.
  - exists xs. by apply (hat_contents_weaken σ).
  - exists ys. by apply (hat_original_contents_weaken σ).
Qed.

(** A trial draws from new objects only. *)
Lemma draw_from_copy_spec hat num_balls_drawn σ xs :
  is_hat σ hat → hat_contents σ hat = Some xs →
  ∃ drawn σ',
    draw_from_copy hat num_balls_drawn σ = (Return drawn, σ') ∧
    heap σ ⊆ heap σ' ∧ tape σ' = tape σ ∧
    drawable xs num_balls_drawn drawn.
Proof.
  intros Hhat Hxs.
  destruct (is_hat_inv _ _ Hhat) as (c & o & xs0 & ys & Hh & Hc & Ho).
  assert (xs0 = xs) as ->.
  { apply hat_contents_Some in Hxs as (c2 & o2 & Hh2 & Hc2). congruence. }
  destruct (deepcopy_spec hat σ c o xs ys Hh Hc Ho)
    as (hat' & c' & o' & σ1 & Hcopy & Hsub & Htape & _ & Hh' & Hc' & _ & Hnew).
  destruct (draw_spec hat' num_balls_drawn σ1 c' o' xs Hh' Hc')
    as (d & xs' & σ2 & Hdraw & Hheap & Htape2 & Hperm & _ & Hlen & Hall).
  exists d, σ2. unfold draw_from_copy. step Hcopy.
  split; [done|]. split; [|split].
  - rewrite Hheap. apply map_subseteq_spec. intros l v Hl.
    rewrite lookup_insert_ne by (intros ->; congruence). by apply (lookup_weaken (heap σ)).
  - congruence.
  - split; [by exists xs'|]. split; [done|]. intros Hk. by apply Hall.
Qed.

Lemma experiment_body_spec hat expected_balls num_balls_drawn count σ xs :
  is_hat σ hat → hat_contents σ hat = Some xs →
  ∃ drawn σ',
    draw_from_copy hat num_balls_drawn σ = (Return drawn, σ') ∧
    experiment_body hat expected_balls num_balls_drawn count σ =
      (Return (if meets_expectations expected_balls drawn
               then count + 1 else count), σ') ∧
    heap σ ⊆ heap σ' ∧ tape σ' = tape σ ∧
    drawable xs num_balls_drawn drawn.
Proof.
  intros Hhat Hxs.
  destruct (draw_from_copy_spec hat num_balls_drawn σ xs Hhat Hxs)
    as (drawn & σ' & Hd & Hsub & Htape & Hdr).
  exists drawn, σ'. split; [done|]. split; [|done].
  unfold experiment_body. step Hd.
  by destruct (meets_expectations expected_balls drawn).
Qed.

(** The trial loop: it returns, it keeps every object that was there,
    and it counts one per successful trial. *)
Lemma experiment_loop_spec n hat expected_balls num_balls_drawn xs :
  ∀ count σ,
  is_hat σ hat → hat_contents σ hat = Some xs →
  ∃ count' σ',
    experiment_loop n hat expected_balls num_balls_drawn count σ =
      (Return count', σ') ∧
    heap σ ⊆ heap σ' ∧ tape σ' = tape σ ∧
    count ≤ count' ≤ count + Z.of_nat n ∧
    ∀ b, (∀ d, drawable xs num_balls_drawn d →
               meets_expectations expected_balls d = b) →
         count' = count + (if b then Z.of_nat n else 0).
Proof.
  induction n as [|n IH]; intros count σ Hhat Hxs.
  - exists count, σ. simpl. split; [done|]. split; [done|]. split; [done|].
    split; [lia|]. intros [] _; lia.
  - destruct (experiment_body_spec hat expected_balls num_balls_drawn
                count σ xs Hhat Hxs)
      as (drawn & σ1 & _ & Hbody & Hsub1 & Htape1 & Hdr).
    destruct (IH (if meets_expectations expected_balls drawn
                  then count + 1 else count) σ1)
      as (count' & σ' & Hloop & Hsub & Htape & Hbound & Hall).
    { by apply (is_hat_weaken σ). }
    { by apply (hat_contents_weaken σ). }
    exists count', σ'. simpl. step Hbody.
    split; [done|]. split; [by etrans|]. split; [congruence|]. split.
    + destruct (meets_expectations expected_balls drawn); lia.
    + intros b Hb. rewrite (Hall b Hb), (Hb drawn Hdr). destruct b; lia.
Qed.

(** Whatever its arguments and its outcome, [experiment] keeps every
    object that was there. *)
Lemma experiment_frame hat expected_balls num_balls_drawn num_experiments σ r σ' :
  is_hat σ hat →
  experiment hat expected_balls num_balls_drawn num_experiments σ = (r, σ') →
  heap σ ⊆ heap σ'.
Proof.
  intros Hhat. destruct (Hhat) as [[xs Hxs] _].
  destruct (experiment_loop_spec (Z.to_nat num_experiments) hat expected_balls
              num_balls_drawn xs 0 σ Hhat Hxs)
    as (count & σ1 & Hloop & Hsub & _).
  unfold experiment. step Hloop. unfold true_divide, raise, ret.
  destruct (num_experiments =? 0); by intros [= _ <-].
Qed.

(** ** The quotient *)

Lemma true_divide_eq a b σ :
  b ≠ 0 → true_divide a b σ = (Return (Qred (inject_Z a / inject_Z b)), σ).
Proof.
  intros Hb. unfold true_divide. by destruct (Z.eqb_spec b 0).
Qed.

Lemma quotient_bounds a b :
  0 < b → 0 ≤ a ≤ b → (0 <= Qred (inject_Z a / inject_Z b) <= 1)%Q.
Proof.
  intros Hb Ha. rewrite Qred_correct.
  destruct b as [|p|p]; try lia.
  unfold Qdiv, Qinv, Qmult, Qle, inject_Z. simpl. lia.
Qed.

Lemma quotient_one b : 0 < b → Qred (inject_Z b / inject_Z b) = 1%Q.
Proof.
  intros Hb. change 1%Q with (Qred 1). apply Qred_complete.
  destruct b as [|p|p]; try lia.
  unfold Qdiv, Qinv, Qmult, Qeq, inject_Z. simpl. lia.
Qed.

Lemma quotient_zero b : 0 < b → Qred (inject_Z 0 / inject_Z b) = 0%Q.
Proof.
  intros Hb. change 0%Q with (Qred 0). apply Qred_complete.
  destruct b as [|p|p]; try lia.
  unfold Qdiv, Qinv, Qmult, Qeq, inject_Z. simpl. lia.
Qed.

(** * The claims *)

(** C1. Trial isolation: [experiment] with a positive number of trials
    returns, and it leaves the hat it was given as it was: every object
    that existed before the call is unchanged, so [hat.contents] and
    [hat.original_contents] have their values of before the call. *)
Theorem experiment_leaves_hat_unmodified
    hat expected_balls num_balls_drawn num_experiments σ xs ys :
  hat_contents σ hat = Some xs →
  hat_original_contents σ hat = Some ys →
  0 < num_experiments →
  ∃ p σ',
    experiment hat expected_balls num_balls_drawn num_experiments σ
      = (Return p, σ') ∧
    heap σ ⊆ heap σ' ∧
    hat_contents σ' hat = Some xs ∧
    hat_original_contents σ' hat = Some ys.
Proof.
  intros Hxs Hys Hn.
  assert (is_hat σ hat) as Hhat by (split; eauto).
  destruct (experiment_loop_spec (Z.to_nat num_experiments) hat expected_balls
              num_balls_drawn xs 0 σ Hhat Hxs)
    as (count & σ' & Hloop & Hsub & _ & _ & _).
  exists (Qred (inject_Z count / inject_Z num_experiments)), σ'.
  unfold experiment. step Hloop.
  split; [apply true_divide_eq; lia|]. split; [done|]. split.
  - by apply (hat_contents_weaken σ).
  - by apply (hat_original_contents_weaken σ).
Qed.

Lemma experiment_leaves_hat_unmodified_witness :
  ∃ p σ',
    experiment sample_hat {[ "red"%string := 1 ]} 2 5 sample_state
      = (Return p, σ') ∧
    heap sample_state ⊆ heap σ' ∧
    hat_contents σ' sample_hat = Some ["red"; "red"; "blue"]%string ∧
    hat_original_contents σ' sample_hat = Some ["red"; "red"; "blue"]%string.
Proof.
  apply (experiment_leaves_hat_unmodified sample_hat {[ "red"%string := 1 ]}
           2 5 sample_state); [reflexivity | reflexivity | lia].
Defined.

(** C2. Over-draw saturation: when [num_balls] is at least the number
    of balls in the hat, however large, [draw] returns normally with all
    the balls that were left, and [contents] is empty afterwards. *)
Theorem draw_all_when_overdrawn self num_balls σ xs :
  hat_contents σ self = Some xs →
  Z.of_nat (length xs) ≤ num_balls →
  ∃ σ', draw self num_balls σ = (Return xs, σ') ∧
        hat_contents σ' self = Some [].
Proof.
  intros Hxs Hk. apply hat_contents_Some in Hxs as (c & o & Hself & Hc).
  destruct (draw_spec self num_balls σ c o xs Hself Hc)
    as (d & xs' & σ' & Hdraw & Hheap & _ & _ & _ & _ & Hall).
  destruct (Hall Hk) as [-> ->]. exists σ'. split; [done|].
  apply hat_contents_Some. exists c, o. rewrite Hheap.
  rewrite lookup_insert_ne by (intros ->; congruence).
  by rewrite lookup_insert_eq.
Qed.

Lemma draw_all_when_overdrawn_witness :
  ∃ σ', draw sample_hat 1000 sample_state
          = (Return ["red"; "red"; "blue"]%string, σ') ∧
        hat_contents σ' sample_hat = Some [].
Proof.
  apply (draw_all_when_overdrawn sample_hat 1000 sample_state);
    [reflexivity | simpl; lia].
Defined.

(** C3. Scoring: a trial adds one to [count_success] if and only if
    every colour of [expected_balls] occurs in the balls drawn at least
    as often as the mapping asks; otherwise it leaves the counter as it
    is.  Colours that are drawn but not asked for play no part. *)
Theorem trial_success_iff
    hat expected_balls num_balls_drawn count_success σ :
  is_hat σ hat →
  ∃ drawn_balls count_success' σ',
    draw_from_copy hat num_balls_drawn σ = (Return drawn_balls, σ') ∧
    experiment_body hat expected_balls num_balls_drawn count_success σ
      = (Return count_success', σ') ∧
    (count_success' = count_success + 1 ∨ count_success' = count_success) ∧
    (count_success' = count_success + 1 ↔
     ∀ color amount, expected_balls !! color = Some amount →
                     amount ≤ Z.of_nat (occurrences color drawn_balls)).
Proof.
  intros Hhat. destruct (Hhat) as [[xs Hxs] _].
  destruct (experiment_body_spec hat expected_balls num_balls_drawn
              count_success σ xs Hhat Hxs)
    as (drawn & σ' & Hd & Hbody & _).
  exists drawn, (if meets_expectations expected_balls drawn
                 then count_success + 1 else count_success), σ'.
  split; [done|]. split; [done|].
  rewrite <- meets_expectations_spec.
  destruct (meets_expectations expected_balls drawn).
  - split; [by left|]. done.
  - split; [by right|]. split; [lia|done].
Qed.

Lemma trial_success_iff_witness :
  ∃ drawn_balls count_success' σ',
    draw_from_copy sample_hat 2 sample_state = (Return drawn_balls, σ') ∧
    experiment_body sample_hat {[ "red"%string := 1 ]} 2 0 sample_state
      = (Return count_success', σ') ∧
    (count_success' = 0 + 1 ∨ count_success' = 0) ∧
    (count_success' = 0 + 1 ↔
     ∀ color amount,
       ({[ "red"%string := 1 ]} : gmap string Z) !! color = Some amount →
       amount ≤ Z.of_nat (occurrences color drawn_balls)).
Proof.
  apply (trial_success_iff sample_hat {[ "red"%string := 1 ]} 2 0 sample_state).
  split; vm_compute; eauto.
Defined.

(** C4. Conservation: for [0 ≤ k ≤ len(contents)], the balls returned
    by [draw(k)] together with the balls returned by drawing all that
    is left afterwards are, as a multiset, the balls that were in the
    hat: none is made up and none is lost. *)
Theorem draw_conservation self k σ xs :
  hat_contents σ self = Some xs →
  0 ≤ k ≤ Z.of_nat (length xs) →
  ∃ d1 σ1 rest d2 σ2,
    draw self k σ = (Return d1, σ1) ∧
    hat_contents σ1 self = Some rest ∧
    draw self (Z.of_nat (length rest)) σ1 = (Return d2, σ2) ∧
    d1 ++ d2 ≡ₚ xs.
Proof.
  intros Hxs Hk. apply hat_contents_Some in Hxs as (c & o & Hself & Hc).
  destruct (draw_spec self k σ c o xs Hself Hc)
    as (d1 & rest & σ1 & Hdraw1 & Hheap1 & _ & Hperm & _).
  assert (self ≠ c) as Hsc by (intros ->; congruence).
  assert (heap σ1 !! self = Some (PyHat c o)) as Hself1.
  { rewrite Hheap1. by rewrite lookup_insert_ne. }
  assert (heap σ1 !! c = Some (PyList rest)) as Hc1.
  { rewrite Hheap1. by rewrite lookup_insert_eq. }
  destruct (draw_spec self (Z.of_nat (length rest)) σ1 c o rest Hself1 Hc1)
    as (d2 & rest' & σ2 & Hdraw2 & _ & _ & _ & _ & _ & Hall).
  destruct Hall as [-> ->]; [lia|].
  exists d1, σ1, rest, rest, σ2. split; [done|]. split; [|done].
  apply hat_contents_Some. by exists c, o.
Qed.

Lemma draw_conservation_witness :
  ∃ d1 σ1 rest d2 σ2,
    draw sample_hat 2 sample_state = (Return d1, σ1) ∧
    hat_contents σ1 sample_hat = Some rest ∧
    draw sample_hat (Z.of_nat (length rest)) σ1 = (Return d2, σ2) ∧
    d1 ++ d2 ≡ₚ ["red"; "red"; "blue"]%string.
Proof.
  apply (draw_conservation sample_hat 2 sample_state);
    [reflexivity | simpl; lia].
Defined.

(** The one keyword that cannot be passed: a call with a keyword named
    [self], unpacked from a dict, raises [TypeError] before the body of
    [__init__] runs, so nothing is built. *)
Lemma Hat_init_self_keyword kwargs σ :
  "self"%string ∈ kwargs.*1 → Hat_init kwargs σ = (Raise TypeError, σ).
Proof. intros Hkw. unfold Hat_init. by rewrite decide_True. Qed.

(** C5, as the code has it.  Construction validates no count and has no
    [InvalidCount] error.  Every mapping that can be passed, that is
    every mapping without the label [self], is accepted whatever its
    counts: the call returns a new hat whose [contents] and
    [original_contents] both hold each colour [max(count, 0)] times, in
    the order of the mapping, so a negative count gives no balls, like
    a count of zero.  The label [self] alone makes the call fail, with
    the [TypeError] of a keyword that collides with the parameter
    [self], whatever the counts are. *)
Theorem Hat_init_validates_no_count kwargs σ :
  ("self"%string ∈ kwargs.*1 → Hat_init kwargs σ = (Raise TypeError, σ)) ∧
  ("self"%string ∉ kwargs.*1 →
   ∃ self σ',
     Hat_init kwargs σ = (Return self, σ') ∧
     hat_contents σ' self = Some (expand kwargs) ∧
     hat_original_contents σ' self = Some (expand kwargs) ∧
     ∀ color, occurrences color (expand kwargs) =
              sum_list_with (λ '(c, n), if decide (c = color)
                                        then Z.to_nat (Z.max n 0) else 0%nat)
                            kwargs).
Proof.
  split; [apply Hat_init_self_keyword|]. intros Hkw.
  destruct (Hat_init_spec kwargs σ Hkw)
    as (self & c & o & σ' & Hinit & _ & _ & _ & Hself & Hc & Ho & _).
  exists self, σ'. split; [done|]. split; [|split].
  - apply hat_contents_Some. by exists c, o.
  - apply hat_original_contents_Some. by exists c, o.
  - apply occurrences_expand.
Qed.

Lemma Hat_init_validates_no_count_witness :
  ∃ self σ',
    Hat_init [("red"%string, 2); ("blue"%string, -1)] (empty_state (λ n, n))
      = (Return self, σ') ∧
    hat_contents σ' self = Some ["red"; "red"]%string ∧
    hat_original_contents σ' self = Some ["red"; "red"]%string ∧
    ∀ color, occurrences color ["red"; "red"]%string =
             sum_list_with (λ '(c, n), if decide (c = color)
                                       then Z.to_nat (Z.max n 0) else 0%nat)
                           [("red"%string, 2); ("blue"%string, -1)].
Proof.
  apply (proj2 (Hat_init_validates_no_count
                  [("red"%string, 2); ("blue"%string, -1)]
                  (empty_state (λ n, n)))).
  apply (bool_decide_unpack _). vm_compute. exact I.
Defined.

(** C5, counterexample: [Hat(red=-1)] is built without any error, and
    it is empty. *)
Lemma Hat_init_negative_count_accepted :
  ∃ σ', Hat_init [("red"%string, -1)] (empty_state (λ n, n))
          = (Return 3%positive, σ') ∧
        hat_contents σ' 3%positive = Some [] ∧
        ∀ e σ'', Hat_init [("red"%string, -1)] (empty_state (λ n, n))
                 ≠ (Raise e, σ'').
Proof.
  eexists. split; [reflexivity|]. split; [reflexivity|]. intros e σ''. discriminate.
Qed.

(** C6, as the code has it.  The only error of [experiment] is the
    [ZeroDivisionError] of its last line, raised exactly when
    [num_experiments] is 0, after a loop that ran no trial and changed
    nothing.  Nothing checks [num_balls_drawn]: for every other number
    of trials the call returns an estimate, whatever the draw size. *)
Theorem experiment_raises_iff_zero_trials
    hat expected_balls num_balls_drawn num_experiments σ :
  is_hat σ hat →
  (∀ e σ',
     experiment hat expected_balls num_balls_drawn num_experiments σ
       = (Raise e, σ') ↔
     num_experiments = 0 ∧ e = ZeroDivisionError ∧ σ' = σ) ∧
  (num_experiments ≠ 0 →
   ∃ p σ', experiment hat expected_balls num_balls_drawn num_experiments σ
             = (Return p, σ')).
Proof.
  intros Hhat. destruct (Hhat) as [[xs Hxs] _].
  destruct (experiment_loop_spec (Z.to_nat num_experiments) hat expected_balls
              num_balls_drawn xs 0 σ Hhat Hxs)
    as (count & σ1 & Hloop & _).
  unfold experiment. step Hloop. split.
  - intros e σ'. destruct (decide (num_experiments = 0)) as [->|Hne].
    + simpl in Hloop. injection Hloop as <- <-.
      unfold true_divide, raise. simpl. split.
      * by intros [= <- <-].
      * by intros (_ & -> & ->).
    + rewrite true_divide_eq by done. split; [done|]. by intros [? _].
  - intros Hne. rewrite true_divide_eq by done. eauto.
Qed.

Lemma experiment_raises_iff_zero_trials_witness :
  (∀ e σ',
     experiment sample_hat {[ "red"%string := 1 ]} 2 0 sample_state
       = (Raise e, σ') ↔
     0 = 0 ∧ e = ZeroDivisionError ∧ σ' = sample_state) ∧
  (0 ≠ 0 →
   ∃ p σ', experiment sample_hat {[ "red"%string := 1 ]} 2 0 sample_state
             = (Return p, σ')).
Proof.
  apply (experiment_raises_iff_zero_trials sample_hat {[ "red"%string := 1 ]}
           2 0 sample_state).
  split; vm_compute; eauto.
Defined.

(** C6, counterexample: with a negative draw size and one trial,
    [experiment] raises nothing; it returns the estimate 0. *)
Lemma experiment_negative_draw_size_accepted :
  fst (experiment sample_hat {[ "red"%string := 1 ]} (-1) 1 sample_state)
  = Return 0%Q.
Proof. reflexivity. Qed.

(** C7. Bounds: with a positive number of trials and a non-negative
    draw size, [experiment] returns a value between 0 and 1; the value
    is 1 when the draw size is at least the number of balls in the hat
    and no colour is asked for more often than the hat holds it; and it
    is 0 when some colour is asked for more often than the hat holds
    it. *)
Theorem experiment_probability_bounds
    hat expected_balls num_balls_drawn num_experiments σ xs :
  is_hat σ hat →
  hat_contents σ hat = Some xs →
  0 < num_experiments →
  0 ≤ num_balls_drawn →
  ∃ p σ',
    experiment hat expected_balls num_balls_drawn num_experiments σ
      = (Return p, σ') ∧
    (0 <= p <= 1)%Q ∧
    (Z.of_nat (length xs) ≤ num_balls_drawn →
     (∀ color amount, expected_balls !! color = Some amount →
                      amount ≤ Z.of_nat (occurrences color xs)) →
     p = 1%Q) ∧
    ((∃ color amount, expected_balls !! color = Some amount ∧
                      Z.of_nat (occurrences color xs) < amount) →
     p = 0%Q).
Proof.
  intros Hhat Hxs Hn Hk.
  destruct (experiment_loop_spec (Z.to_nat num_experiments) hat expected_balls
              num_balls_drawn xs 0 σ Hhat Hxs)
    as (count & σ' & Hloop & _ & _ & Hbound & Hall).
  exists (Qred (inject_Z count / inject_Z num_experiments)), σ'.
  unfold experiment. step Hloop.
  split; [apply true_divide_eq; lia|]. split; [|split].
  - apply quotient_bounds; lia.
  - intros Hlen Henough. rewrite (Hall true).
    + rewrite Z2Nat.id by lia. simpl. by apply quotient_one.
    + intros d (_ & _ & Hd). rewrite (Hd Hlen).
      by apply meets_expectations_spec.
  - intros (color & amount & Hexp & Hfew). rewrite (Hall false).
    + rewrite Z.add_0_r. by apply quotient_zero.
    + intros d ((rest & Hperm) & _).
      destruct (meets_expectations expected_balls d) eqn:Hmeets; [|done].
      rewrite meets_expectations_spec in Hmeets.
      specialize (Hmeets color amount Hexp).
      rewrite <- (occurrences_perm color _ _ Hperm), occurrences_app in Hfew.
      lia.
Qed.

Lemma experiment_probability_bounds_witness :
  ∃ p σ',
    experiment sample_hat {[ "red"%string := 2 ]} 3 4 sample_state
      = (Return p, σ') ∧
    (0 <= p <= 1)%Q ∧
    (Z.of_nat (length ["red"; "red"; "blue"]%string) ≤ 3 →
     (∀ color amount,
        ({[ "red"%string := 2 ]} : gmap string Z) !! color = Some amount →
        amount ≤ Z.of_nat (occurrences color ["red"; "red"; "blue"]%string)) →
     p = 1%Q) ∧
    ((∃ color amount,
        ({[ "red"%string := 2 ]} : gmap string Z) !! color = Some amount ∧
        Z.of_nat (occurrences color ["red"; "red"; "blue"]%string) < amount) →
     p = 0%Q).
Proof.
  apply (experiment_probability_bounds sample_hat {[ "red"%string := 2 ]}
           3 4 sample_state);
    [split; vm_compute; eauto | reflexivity | lia | lia].
Defined.

(** C8, as the code has it.  With draw size 0 and a positive number of
    trials, [experiment] returns 0 whenever the criterion asks for at
    least one ball of some colour. *)
Theorem experiment_zero_draw_positive_requirement
    hat expected_balls num_experiments σ :
  is_hat σ hat →
  0 < num_experiments →
  (∃ color amount, expected_balls !! color = Some amount ∧ 0 < amount) →
  ∃ σ', experiment hat expected_balls 0 num_experiments σ = (Return 0%Q, σ').
Proof.
  intros Hhat Hn (color & amount & Hexp & Hpos). destruct (Hhat) as [[xs Hxs] _].
  destruct (experiment_loop_spec (Z.to_nat num_experiments) hat expected_balls
              0 xs 0 σ Hhat Hxs)
    as (count & σ' & Hloop & _ & _ & _ & Hall).
  exists σ'. unfold experiment. step Hloop.
  rewrite true_divide_eq by lia. rewrite (Hall false).
  - rewrite Z.add_0_r. by rewrite quotient_zero.
  - intros d (_ & Hlen & _). simpl in Hlen.
    apply length_zero_iff_nil in Hlen as ->.
    destruct (meets_expectations expected_balls []) eqn:Hmeets; [|done].
    rewrite meets_expectations_spec in Hmeets.
    specialize (Hmeets color amount Hexp). unfold occurrences in Hmeets.
    simpl in Hmeets. lia.
Qed.

Lemma experiment_zero_draw_positive_requirement_witness :
  ∃ σ', experiment sample_hat {[ "red"%string := 1 ]} 0 3 sample_state
          = (Return 0%Q, σ').
Proof.
  apply (experiment_zero_draw_positive_requirement sample_hat
           {[ "red"%string := 1 ]} 3 sample_state).
  - split; vm_compute; eauto.
  - lia.
  - exists "red"%string, 1. split; [reflexivity | lia].
Defined.

(** C8, counterexample: the criterion [{"red": 0}] is not empty, yet
    drawing nothing meets it, and one trial gives 1, not 0. *)
Lemma experiment_zero_draw_zero_requirement :
  ({[ "red"%string := 0 ]} : gmap string Z) ≠ ∅ ∧
  fst (experiment sample_hat {[ "red"%string := 0 ]} 0 1 sample_state)
  = Return 1%Q.
Proof. split; [|reflexivity]. apply insert_non_empty. Qed.

(** C9. Invariant of a hat: after its construction and any sequence of
    operations on it ([draw] calls, and [experiment] calls with it as
    the reference hat), [original_contents] still is the list made at
    construction and [contents] is no longer than it; and one more
    [draw] leaves in [contents] a sublist of what was there, so it
    removes balls and adds none, and leaves [original_contents]. *)
Theorem hat_invariant kwargs σ0 self σ1 σ :
  Hat_init kwargs σ0 = (Return self, σ1) →
  rtc (hat_step self) σ1 σ →
  ∃ xs,
    hat_contents σ self = Some xs ∧
    hat_original_contents σ self = Some (expand kwargs) ∧
    (length xs ≤ length (expand kwargs))%nat ∧
    ∀ σ', draw_step self σ σ' →
          ∃ xs', hat_contents σ' self = Some xs' ∧ xs' `sublist_of` xs ∧
                 hat_original_contents σ' self = Some (expand kwargs).
Proof.
  intros Hinit Hsteps.
  assert (∃ c o xs, heap σ !! self = Some (PyHat c o) ∧
                    heap σ !! c = Some (PyList xs) ∧
                    heap σ !! o = Some (PyList (expand kwargs)) ∧
                    c ≠ o ∧ xs `sublist_of` expand kwargs) as Hinv.
  { revert σ Hsteps. apply rtc_ind_r.
    - destruct (Hat_init_spec kwargs σ0 (Hat_init_Return_inv _ _ _ _ Hinit))
        as (self' & c & o & σ' & Hinit' & _ & _ & _ & Hself & Hc & Ho & Hco).
      rewrite Hinit in Hinit'. injection Hinit' as <- <-.
      by exists c, o, (expand kwargs).
    - intros σb σc _ Hstep (c & o & xs & Hself & Hc & Ho & Hco & Hsub).
      destruct Hstep as [(k & r & Hdraw) | (e & k & n & r & Hexp)].
      + destruct (draw_spec self k σb c o xs Hself Hc)
          as (d & xs' & σ' & Hdraw' & Hheap & _ & _ & Hsub' & _).
        rewrite Hdraw in Hdraw'. injection Hdraw' as _ <-.
        exists c, o, xs'. rewrite Hheap.
        rewrite lookup_insert_ne by (intros ->; congruence).
        rewrite lookup_insert_eq. rewrite lookup_insert_ne by done.
        split; [done|]. split; [done|]. split; [done|]. split; [done|].
        by etrans.
      + assert (heap σb ⊆ heap σc) as Hframe.
        { apply (experiment_frame self e k n σb r σc); [|done].
          split; [exists xs; apply hat_contents_Some
                 |exists (expand kwargs); apply hat_original_contents_Some];
            by exists c, o. }
        exists c, o, xs.
        split; [by apply (lookup_weaken (heap σb))|].
        split; [by apply (lookup_weaken (heap σb))|].
        split; [by apply (lookup_weaken (heap σb))|]. done. }
  destruct Hinv as (c & o & xs & Hself & Hc & Ho & Hco & Hsub).
  exists xs. split; [|split; [|split]].
  - apply hat_contents_Some. by exists c, o.
  - apply hat_original_contents_Some. by exists c, o.
  - by apply sublist_length.
  - intros σ' (k & r & Hdraw).
    destruct (draw_spec self k σ c o xs Hself Hc)
      as (d & xs' & σ'' & Hdraw' & Hheap & _ & _ & Hsub' & _).
    rewrite Hdraw in Hdraw'. injection Hdraw' as _ <-.
    exists xs'. split; [|split; [done|]].
    + apply hat_contents_Some. exists c, o. rewrite Hheap.
      rewrite lookup_insert_ne by (intros ->; congruence).
      by rewrite lookup_insert_eq.
    + apply hat_original_contents_Some. exists c, o. rewrite Hheap.
      rewrite lookup_insert_ne by (intros ->; congruence).
      by rewrite lookup_insert_ne.
Qed.

Lemma hat_invariant_witness :
  ∃ xs,
    hat_contents (snd (draw sample_hat 1 sample_state)) sample_hat = Some xs ∧
    hat_original_contents (snd (draw sample_hat 1 sample_state)) sample_hat
      = Some (expand sample_kwargs) ∧
    (length xs ≤ length (expand sample_kwargs))%nat ∧
    ∀ σ', draw_step sample_hat (snd (draw sample_hat 1 sample_state)) σ' →
          ∃ xs', hat_contents σ' sample_hat = Some xs' ∧ xs' `sublist_of` xs ∧
                 hat_original_contents σ' sample_hat
                 = Some (expand sample_kwargs).
Proof.
  apply (hat_invariant sample_kwargs
           (empty_state (λ n, n)) sample_hat sample_state).
  - reflexivity.
  - apply rtc_once. left. exists 1, (fst (draw sample_hat 1 sample_state)).
    reflexivity.
Defined.

(** C10. A negative [num_balls] makes [draw] do nothing: it returns the
    empty list, raises nothing, and leaves the hat, and all the rest of
    the state, as it was. *)
Theorem draw_negative_is_noop self num_balls σ xs :
  hat_contents σ self = Some xs →
  num_balls < 0 →
  draw self num_balls σ = (Return [], σ).
Proof.
  intros Hxs Hk. apply hat_contents_Some in Hxs as (c & o & Hself & Hc).
  unfold draw. step (get_contents_eq _ _ _ _ Hself).
  step (read_list_eq _ _ _ Hc).
  destruct (Z.leb_spec (Z.of_nat (length xs)) num_balls) as [Hge|_]; [lia|].
  by replace (Z.to_nat num_balls) with 0%nat by lia.
Qed.

Lemma draw_negative_is_noop_witness :
  draw sample_hat (-2) sample_state = (Return [], sample_state).
Proof.
  apply (draw_negative_is_noop sample_hat (-2) sample_state
           ["red"; "red"; "blue"]%string); [reflexivity | lia].
Defined.

(** * Further properties of the program *)

(** ** Hat.draw *)

(** The whole effect of one [draw] call: the state it leaves, with the
    number of generator calls it made. *)
Lemma draw_effect self num_balls σ c o xs :
  heap σ !! self = Some (PyHat c o) →
  heap σ !! c = Some (PyList xs) →
  ∃ d rest,
    draw self num_balls σ =
      (Return d,
       {| heap := <[c := PyList rest]> (heap σ); tape := tape σ;
          cursor := (cursor σ + generator_calls num_balls (length xs))%nat |}) ∧
    d ++ rest ≡ₚ xs ∧ rest `sublist_of` xs ∧
    length d = (Z.to_nat num_balls `min` length xs)%nat.
Proof.
  intros Hself Hc.
  destruct (Z.leb_spec (Z.of_nat (length xs)) num_balls) as [Hge|Hlt].
  - exists xs, []. unfold generator_calls. rewrite decide_False by lia.
    rewrite Nat.add_0_r.
    split; [|split; [by rewrite app_nil_r|split; [apply sublist_nil_l|lia]]].
    unfold draw. step (get_contents_eq _ _ _ _ Hself).
    step (read_list_eq _ _ _ Hc).
    destruct (Z.leb_spec (Z.of_nat (length xs)) num_balls); [|lia].
    unfold list_slice_all. step (read_list_eq _ _ _ Hc).
    by step (list_clear_eq _ _ _ Hc).
  - destruct (draw_loop_spec (Z.to_nat num_balls) self [] σ c o xs Hself Hc)
      as (d & rest & Hloop & Hp & Hs & Hd); [lia|].
    exists d, rest. split; [|split; [done|split; [done|lia]]].
    unfold draw. step (get_contents_eq _ _ _ _ Hself).
    step (read_list_eq _ _ _ Hc).
    destruct (Z.leb_spec (Z.of_nat (length xs)) num_balls); [lia|].
    rewrite Hloop. simpl. do 3 f_equal. unfold generator_calls.
    destruct (decide (0 ≤ num_balls < Z.of_nat (length xs))); lia.
Qed.

Lemma hat_contents_after_write σ self c o xs rest t n :
  heap σ !! self = Some (PyHat c o) →
  heap σ !! c = Some (PyList xs) →
  hat_contents {| heap := <[c := PyList rest]> (heap σ); tape := t;
                  cursor := n |} self = Some rest.
Proof.
  intros Hself Hc. apply hat_contents_Some. exists c, o. simpl.
  rewrite lookup_insert_ne by (intros ->; congruence).
  by rewrite lookup_insert_eq.
Qed.

(** X1. [draw] never raises, whatever its argument: from a hat that
    holds [len] balls it returns [min(max(num_balls, 0), len)] balls,
    all taken from the hat, and leaves the others in their order. *)
Theorem draw_returns_min self num_balls σ xs :
  hat_contents σ self = Some xs →
  ∃ d rest σ',
    draw self num_balls σ = (Return d, σ') ∧
    hat_contents σ' self = Some rest ∧
    length d = (Z.to_nat num_balls `min` length xs)%nat ∧
    (length rest = length xs - length d)%nat ∧
    d ++ rest ≡ₚ xs ∧ rest `sublist_of` xs ∧
    ∀ color, (occurrences color d ≤ occurrences color xs)%nat.
Proof.
  intros Hxs. apply hat_contents_Some in Hxs as (c & o & Hself & Hc).
  destruct (draw_effect self num_balls σ c o xs Hself Hc)
    as (d & rest & Hdraw & Hperm & Hsub & Hlen).
  eexists d, rest, _. split; [exact Hdraw|].
  split; [by eapply hat_contents_after_write|]. split; [done|].
  split; [|split; [done|split; [done|]]].
  - rewrite <- Hperm, length_app. lia.
  - intros color. rewrite <- (occurrences_perm color _ _ Hperm), occurrences_app.
    lia.
Qed.

Lemma draw_returns_min_witness :
  ∃ d rest σ',
    draw sample_hat 2 sample_state = (Return d, σ') ∧
    hat_contents σ' sample_hat = Some rest ∧
    length d = (Z.to_nat 2 `min` length ["red"; "red"; "blue"]%string)%nat ∧
    (length rest = length ["red"; "red"; "blue"]%string - length d)%nat ∧
    d ++ rest ≡ₚ ["red"; "red"; "blue"]%string ∧
    rest `sublist_of` ["red"; "red"; "blue"]%string ∧
    ∀ color, (occurrences color d
              ≤ occurrences color ["red"; "red"; "blue"]%string)%nat.
Proof.
  apply (draw_returns_min sample_hat 2 sample_state). reflexivity.
Defined.

(** X2. [draw] calls the generator once per ball when it is asked for
    fewer balls than the hat holds, and not at all otherwise: drawing
    everything, or nothing, does not depend on the generator and leaves
    its state alone. *)
Theorem draw_generator_calls self num_balls σ xs :
  hat_contents σ self = Some xs →
  ∃ d σ',
    draw self num_balls σ = (Return d, σ') ∧
    tape σ' = tape σ ∧
    cursor σ' = (cursor σ + generator_calls num_balls (length xs))%nat.
Proof.
  intros Hxs. apply hat_contents_Some in Hxs as (c & o & Hself & Hc).
  destruct (draw_effect self num_balls σ c o xs Hself Hc)
    as (d & rest & Hdraw & _).
  eexists d, _. split; [exact Hdraw|]. done.
Qed.

Lemma draw_generator_calls_witness :
  ∃ d σ',
    draw sample_hat 2 sample_state = (Return d, σ') ∧
    tape σ' = tape sample_state ∧
    cursor σ' = (cursor sample_state + 2)%nat.
Proof.
  apply (draw_generator_calls sample_hat 2 sample_state
           ["red"; "red"; "blue"]%string).
  reflexivity.
Defined.

(** X3. [draw] writes one object only, the list [self.contents]: every
    other object, so the hat's [original_contents] and any hat that
    does not share that list, is after the call what it was before. *)
Theorem draw_writes_contents_only self num_balls σ c o xs r σ' :
  heap σ !! self = Some (PyHat c o) →
  heap σ !! c = Some (PyList xs) →
  draw self num_balls σ = (r, σ') →
  ∀ l, l ≠ c → heap σ' !! l = heap σ !! l.
Proof.
  intros Hself Hc Hdraw l Hl.
  destruct (draw_effect self num_balls σ c o xs Hself Hc)
    as (d & rest & Hdraw' & _).
  rewrite Hdraw in Hdraw'. injection Hdraw' as _ ->. simpl.
  by rewrite lookup_insert_ne.
Qed.

Lemma draw_writes_contents_only_witness :
  heap (snd (draw sample_hat 2 sample_state)) !! 2%positive
  = heap sample_state !! 2%positive.
Proof.
  apply (draw_writes_contents_only sample_hat 2 sample_state 1%positive
           2%positive ["red"; "red"; "blue"]%string
           (fst (draw sample_hat 2 sample_state))
           (snd (draw sample_hat 2 sample_state)));
    [reflexivity | reflexivity | reflexivity | discriminate].
Defined.

(** X4. Two draws in a row, of [a] and then [b] balls, return together
    as many balls as one draw of [a + b] would: [min(a + b, len)].
    With what is left they are the balls the hat held. *)
Theorem draw_twice_count self a b σ xs :
  hat_contents σ self = Some xs →
  0 ≤ a → 0 ≤ b →
  ∃ d1 σ1 d2 σ2 rest,
    draw self a σ = (Return d1, σ1) ∧
    draw self b σ1 = (Return d2, σ2) ∧
    hat_contents σ2 self = Some rest ∧
    (length d1 + length d2 = Z.to_nat (a + b) `min` length xs)%nat ∧
    d1 ++ d2 ++ rest ≡ₚ xs.
Proof.
  intros Hxs Ha Hb. apply hat_contents_Some in Hxs as (c & o & Hself & Hc).
  destruct (draw_effect self a σ c o xs Hself Hc)
    as (d1 & rest1 & Hdraw1 & Hperm1 & _ & Hlen1).
  set (σ1 := {| heap := <[c := PyList rest1]> (heap σ); tape := tape σ;
                cursor := (cursor σ + generator_calls a (length xs))%nat |})
    in *.
  assert (self ≠ c) as Hsc by (intros ->; congruence).
  assert (heap σ1 !! self = Some (PyHat c o)) as Hself1
    by (simpl; by rewrite lookup_insert_ne).
  assert (heap σ1 !! c = Some (PyList rest1)) as Hc1
    by (simpl; by rewrite lookup_insert_eq).
  destruct (draw_effect self b σ1 c o rest1 Hself1 Hc1)
    as (d2 & rest & Hdraw2 & Hperm2 & _ & Hlen2).
  eexists d1, σ1, d2, _, rest. split; [exact Hdraw1|]. split; [exact Hdraw2|].
  split; [by eapply hat_contents_after_write|].
  assert (length xs = (length d1 + length rest1)%nat) as Hl
    by (by rewrite <- Hperm1, length_app).
  split; [lia|]. by rewrite Hperm2.
Qed.

Lemma draw_twice_count_witness :
  ∃ d1 σ1 d2 σ2 rest,
    draw sample_hat 1 sample_state = (Return d1, σ1) ∧
    draw sample_hat 1 σ1 = (Return d2, σ2) ∧
    hat_contents σ2 sample_hat = Some rest ∧
    (length d1 + length d2
     = Z.to_nat (1 + 1) `min` length ["red"; "red"; "blue"]%string)%nat ∧
    d1 ++ d2 ++ rest ≡ₚ ["red"; "red"; "blue"]%string.
Proof.
  apply (draw_twice_count sample_hat 1 1 sample_state);
    [reflexivity | lia | lia].
Defined.

(** ** Hat.__init__ *)

(** The whole effect of a construction: three objects are added to the
    heap, at references that were free. *)
Lemma Hat_init_effect kwargs σ :
  "self"%string ∉ kwargs.*1 →
  ∃ self c o,
    Hat_init kwargs σ =
      (Return self,
       state_upd_heap (λ h, <[self := PyHat c o]>
                              (<[o := PyList (expand kwargs)]>
                                 (<[c := PyList (expand kwargs)]> h))) σ) ∧
    heap σ !! self = None ∧ heap σ !! c = None ∧ heap σ !! o = None ∧
    c ≠ o ∧ self ≠ c ∧ self ≠ o.
Proof.
  intros Hkw. unfold Hat_init. rewrite decide_False by done.
  unfold Hat_init_body.
  destruct (alloc_fresh (PyList []) σ) as (c & Hc & Hac). step Hac.
  set (σ1 := state_upd_heap <[c := PyList []]> σ).
  assert (heap σ1 !! c = Some (PyList [])) as Hc1
    by (simpl; by rewrite lookup_insert_eq).
  step (fill_contents_eq kwargs c σ1 [] Hc1). simpl.
  set (σ2 := state_upd_heap <[c := PyList (expand kwargs)]> σ1).
  assert (heap σ2 !! c = Some (PyList (expand kwargs))) as Hc2
    by (simpl; by rewrite lookup_insert_eq).
  unfold list_slice_all. step (read_list_eq _ _ _ Hc2).
  destruct (alloc_fresh (PyList (expand kwargs)) σ2) as (o & Ho & Hao). step Hao.
  set (σ3 := state_upd_heap <[o := PyList (expand kwargs)]> σ2).
  destruct (alloc_fresh (PyHat c o) σ3) as (self & Hs & Has). rewrite Has.
  assert (o ≠ c) as Hne1 by (intros ->; congruence).
  assert (self ≠ o) as Hne2.
  { intros ->. simpl in Hs. by rewrite lookup_insert_eq in Hs. }
  assert (self ≠ c) as Hne3.
  { intros ->. simpl in Hs.
    by rewrite lookup_insert_ne, lookup_insert_eq in Hs. }
  exists self, c, o. split.
  { unfold state_upd_heap. simpl. by rewrite insert_insert_eq. }
  simpl in Hs, Ho. rewrite insert_insert_eq in Hs, Ho.
  rewrite !lookup_insert_ne in Hs by done.
  rewrite lookup_insert_ne in Ho by done. done.
Qed.

(** X5. A construction that is given no keyword named [self] returns,
    and its whole effect on the heap is three new objects at three
    different references that were free: the list [contents], the list
    [original_contents], both holding [expand kwargs], and the instance
    whose attributes refer to them.  The two lists are separate
    objects, so that a later change of [contents] cannot reach
    [original_contents].  No other object is touched and the generator
    is not used. *)
Theorem Hat_init_allocates_separate_lists kwargs σ :
  "self"%string ∉ kwargs.*1 →
  ∃ self c o σ',
    Hat_init kwargs σ = (Return self, σ') ∧
    heap σ' = <[self := PyHat c o]>
                (<[o := PyList (expand kwargs)]>
                   (<[c := PyList (expand kwargs)]> (heap σ))) ∧
    c ≠ o ∧ self ≠ c ∧ self ≠ o ∧
    (self ∉ dom (heap σ)) ∧ (c ∉ dom (heap σ)) ∧ (o ∉ dom (heap σ)) ∧
    heap σ' !! self = Some (PyHat c o) ∧
    heap σ' !! c = Some (PyList (expand kwargs)) ∧
    heap σ' !! o = Some (PyList (expand kwargs)) ∧
    dom (heap σ') = {[self; c; o]} ∪ dom (heap σ) ∧
    heap σ ⊆ heap σ' ∧ tape σ' = tape σ ∧ cursor σ' = cursor σ.
Proof.
  intros Hkw.
  destruct (Hat_init_effect kwargs σ Hkw)
    as (self & c & o & Hinit & Hs & Hc & Ho & Hco & Hsc & Hso).
  eexists self, c, o, _. split; [exact Hinit|]. simpl.
  split; [done|]. split; [done|]. split; [done|]. split; [done|].
  split; [by apply not_elem_of_dom|]. split; [by apply not_elem_of_dom|].
  split; [by apply not_elem_of_dom|].
  split; [by rewrite lookup_insert_eq|].
  split.
  { rewrite !lookup_insert_ne by done. by rewrite lookup_insert_eq. }
  split.
  { rewrite lookup_insert_ne by done. by rewrite lookup_insert_eq. }
  split.
  { rewrite !dom_insert_L. apply set_eq. intros l.
    rewrite !elem_of_union, !elem_of_singleton. tauto. }
  split; [|done].
  apply map_subseteq_spec. intros l v Hl.
  rewrite !lookup_insert_ne by (intros ->; congruence). done.
Qed.

Lemma Hat_init_allocates_separate_lists_witness :
  ∃ self c o σ',
    Hat_init sample_kwargs (empty_state (λ n, n)) = (Return self, σ') ∧
    heap σ' = <[self := PyHat c o]>
                (<[o := PyList (expand sample_kwargs)]>
                   (<[c := PyList (expand sample_kwargs)]>
                      (heap (empty_state (λ n, n))))) ∧
    c ≠ o ∧ self ≠ c ∧ self ≠ o ∧
    (self ∉ dom (heap (empty_state (λ n, n)))) ∧
    (c ∉ dom (heap (empty_state (λ n, n)))) ∧
    (o ∉ dom (heap (empty_state (λ n, n)))) ∧
    heap σ' !! self = Some (PyHat c o) ∧
    heap σ' !! c = Some (PyList (expand sample_kwargs)) ∧
    heap σ' !! o = Some (PyList (expand sample_kwargs)) ∧
    dom (heap σ') = {[self; c; o]} ∪ dom (heap (empty_state (λ n, n))) ∧
    heap (empty_state (λ n, n)) ⊆ heap σ' ∧
    tape σ' = tape (empty_state (λ n, n)) ∧
    cursor σ' = cursor (empty_state (λ n, n)).
Proof.
  apply (Hat_init_allocates_separate_lists sample_kwargs
           (empty_state (λ n, n))).
  apply (bool_decide_unpack _). vm_compute. exact I.
Defined.

(** X6. A mapping without a positive count, and without the label
    [self], gives an empty hat, which is a legal hat: every [draw] on
    it returns the empty list. *)
Theorem Hat_init_no_positive_count_empty kwargs σ :
  "self"%string ∉ kwargs.*1 →
  (∀ color count, (color, count) ∈ kwargs → count ≤ 0) →
  ∃ self σ1,
    Hat_init kwargs σ = (Return self, σ1) ∧
    hat_contents σ1 self = Some [] ∧
    ∀ num_balls, ∃ σ2, draw self num_balls σ1 = (Return [], σ2) ∧
                       hat_contents σ2 self = Some [].
Proof.
  intros Hkw Hall.
  assert (expand kwargs = []) as Hempty.
  { clear Hkw. induction kwargs as [|[c0 n] rest IH]; [done|].
    change (expand ((c0, n) :: rest))
      with (replicate (Z.to_nat n) c0 ++ expand rest).
    rewrite IH by (intros c1 n1 Hin; apply (Hall c1 n1);
                   by apply list_elem_of_further).
    specialize (Hall c0 n (list_elem_of_here _ _)).
    by replace (Z.to_nat n) with 0%nat by lia. }
  destruct (Hat_init_effect kwargs σ Hkw)
    as (self & c & o & Hinit & Hs & Hc & Ho & Hco & Hsc & Hso).
  rewrite Hempty in Hinit.
  eexists self, _. split; [exact Hinit|].
  match goal with |- hat_contents ?s _ = _ ∧ _ => set (σ1 := s) end.
  assert (heap σ1 !! self = Some (PyHat c o)) as Hself1
    by (simpl; by rewrite lookup_insert_eq).
  assert (heap σ1 !! c = Some (PyList [])) as Hc1.
  { simpl. rewrite !lookup_insert_ne by done. by rewrite lookup_insert_eq. }
  split; [apply hat_contents_Some; by exists c, o|].
  intros num_balls.
  destruct (draw_effect self num_balls σ1 c o [] Hself1 Hc1)
    as (d & rest & Hdraw & Hperm & _ & _).
  apply Permutation_nil_r, app_eq_nil in Hperm as [-> ->].
  eexists. split; [exact Hdraw|]. by eapply hat_contents_after_write.
Qed.

Lemma Hat_init_no_positive_count_empty_witness :
  ∃ self σ1,
    Hat_init [("red"%string, 0); ("blue"%string, -2)] (empty_state (λ n, n))
      = (Return self, σ1) ∧
    hat_contents σ1 self = Some [] ∧
    ∀ num_balls, ∃ σ2, draw self num_balls σ1 = (Return [], σ2) ∧
                       hat_contents σ2 self = Some [].
Proof.
  apply (Hat_init_no_positive_count_empty
           [("red"%string, 0); ("blue"%string, -2)] (empty_state (λ n, n))).
  - apply (bool_decide_unpack _). vm_compute. exact I.
  - intros color count Hin.
    apply elem_of_cons in Hin as [[= -> ->]|Hin]; [lia|].
    apply elem_of_cons in Hin as [[= -> ->]|Hin]; [lia|].
    by apply elem_of_nil in Hin.
Defined.

(** ** copy.deepcopy as experiment uses it *)

Lemma deepcopy_effect hat σ c o xs ys :
  heap σ !! hat = Some (PyHat c o) →
  heap σ !! c = Some (PyList xs) →
  heap σ !! o = Some (PyList ys) →
  ∃ hat' c' o' σ',
    deepcopy hat σ = (Return hat', σ') ∧
    heap σ ⊆ heap σ' ∧ tape σ' = tape σ ∧ cursor σ' = cursor σ ∧
    heap σ' !! hat' = Some (PyHat c' o') ∧
    heap σ' !! c' = Some (PyList xs) ∧
    heap σ' !! o' = Some (PyList ys) ∧
    heap σ !! hat' = None ∧ heap σ !! c' = None ∧ heap σ !! o' = None.
Proof.
  intros Hhat Hc Ho. unfold deepcopy.
  step (get_contents_eq _ _ _ _ Hhat).
  step (get_original_contents_eq _ _ _ _ Hhat).
  step (read_list_eq _ _ _ Hc).
  destruct (alloc_fresh (PyList xs) σ) as (c' & Hc' & Hac). step Hac.
  set (σ1 := state_upd_heap <[c' := PyList xs]> σ).
  assert (heap σ ⊆ heap σ1) as H01 by (by apply insert_subseteq).
  destruct (decide (o = c)) as [->|Hoc].
  - assert (ys = xs) as -> by congruence.
    unfold ret at 1. unfold bind at 1.
    destruct (alloc_fresh (PyHat c' c') σ1) as (h' & Hh' & Hah). rewrite Hah.
    assert (h' ≠ c') as Hne.
    { intros ->. simpl in Hh'. by rewrite lookup_insert_eq in Hh'. }
    exists h', c', c', (state_upd_heap <[h' := PyHat c' c']> σ1).
    split; [done|]. simpl. split.
    { etrans; [exact H01|]. by apply insert_subseteq. }
    split; [done|]. split; [done|]. rewrite lookup_insert_eq.
    rewrite lookup_insert_ne by done. rewrite lookup_insert_eq.
    simpl in Hh'. rewrite lookup_insert_ne in Hh' by done. done.
  - assert (heap σ1 !! o = Some (PyList ys)) as Ho1.
    { by apply (lookup_weaken (heap σ)). }
    destruct (alloc_fresh (PyList ys) σ1) as (o' & Ho' & Hao).
    set (σ2 := state_upd_heap <[o' := PyList ys]> σ1).
    assert ((let! ys := read_list o in alloc (PyList ys)) σ1 = (Return o', σ2))
      as Hinner by (by step (read_list_eq _ _ _ Ho1)).
    step Hinner.
    destruct (alloc_fresh (PyHat c' o') σ2) as (h' & Hh' & Hah). rewrite Hah.
    assert (o' ≠ c') as Hne1.
    { intros ->. simpl in Ho'. by rewrite lookup_insert_eq in Ho'. }
    assert (h' ≠ o') as Hne2.
    { intros ->. simpl in Hh'. by rewrite lookup_insert_eq in Hh'. }
    assert (h' ≠ c') as Hne3.
    { intros ->. simpl in Hh'.
      by rewrite lookup_insert_ne, lookup_insert_eq in Hh'. }
    exists h', c', o', (state_upd_heap <[h' := PyHat c' o']> σ2).
    split; [done|]. simpl. split.
    { etrans; [exact H01|]. etrans; [|by apply insert_subseteq].
      by apply insert_subseteq. }
    split; [done|]. split; [done|]. rewrite lookup_insert_eq.
    rewrite !(lookup_insert_ne _ h') by done. rewrite lookup_insert_eq.
    rewrite lookup_insert_ne by done. rewrite lookup_insert_eq.
    simpl in Hh', Ho'. rewrite !lookup_insert_ne in Hh' by done.
    rewrite lookup_insert_ne in Ho' by done. done.
Qed.

(** X7. The copy that a trial draws from is a hat of its own: it holds
    the balls of the reference hat and shares no list with it, so that
    a [draw] on either of the two changes nothing in the other. *)
Theorem deepcopy_independent hat σ xs ys :
  hat_contents σ hat = Some xs →
  hat_original_contents σ hat = Some ys →
  ∃ hat' σ',
    deepcopy hat σ = (Return hat', σ') ∧
    (hat' ∉ dom (heap σ)) ∧
    hat_contents σ' hat' = Some xs ∧
    hat_original_contents σ' hat' = Some ys ∧
    (∀ num_balls r σ'',
       draw hat' num_balls σ' = (r, σ'') →
       hat_contents σ'' hat = Some xs ∧
       hat_original_contents σ'' hat = Some ys) ∧
    (∀ num_balls r σ'',
       draw hat num_balls σ' = (r, σ'') →
       hat_contents σ'' hat' = Some xs ∧
       hat_original_contents σ'' hat' = Some ys).
Proof.
  intros Hxs Hys.
  apply hat_contents_Some in Hxs as (c & o & Hh & Hc).
  apply hat_original_contents_Some in Hys as (c2 & o2 & Hh2 & Ho).
  assert (o2 = o) as -> by congruence. clear c2 Hh2.
  destruct (deepcopy_effect hat σ c o xs ys Hh Hc Ho)
    as (hat' & c' & o' & σ' & Hcopy & Hsub & _ & _ & Hh' & Hc' & Ho'
        & Hfh & Hfc & Hfo).
  assert (heap σ' !! hat = Some (PyHat c o)) as Hh1
    by (by apply (lookup_weaken (heap σ))).
  assert (heap σ' !! c = Some (PyList xs)) as Hc1
    by (by apply (lookup_weaken (heap σ))).
  assert (heap σ' !! o = Some (PyList ys)) as Ho1
    by (by apply (lookup_weaken (heap σ))).
  exists hat', σ'. split; [done|]. split; [by apply not_elem_of_dom|].
  split; [apply hat_contents_Some; by exists c', o'|].
  split; [apply hat_original_contents_Some; by exists c', o'|]. split.
  - intros k r σ'' Hdraw.
    destruct (draw_effect hat' k σ' c' o' xs Hh' Hc') as (d & rest & Hd & _).
    rewrite Hdraw in Hd. injection Hd as _ ->. split.
    + apply hat_contents_Some. exists c, o. simpl.
      rewrite !lookup_insert_ne by (intros ->; congruence). done.
    + apply hat_original_contents_Some. exists c, o. simpl.
      rewrite !lookup_insert_ne by (intros ->; congruence). done.
  - intros k r σ'' Hdraw.
    destruct (draw_effect hat k σ' c o xs Hh1 Hc1) as (d & rest & Hd & _).
    rewrite Hdraw in Hd. injection Hd as _ ->. split.
    + apply hat_contents_Some. exists c', o'. simpl.
      rewrite !lookup_insert_ne by (intros ->; congruence). done.
    + apply hat_original_contents_Some. exists c', o'. simpl.
      rewrite !lookup_insert_ne by (intros ->; congruence). done.
Qed.

Lemma deepcopy_independent_witness :
  ∃ hat' σ',
    deepcopy sample_hat sample_state = (Return hat', σ') ∧
    (hat' ∉ dom (heap sample_state)) ∧
    hat_contents σ' hat' = Some ["red"; "red"; "blue"]%string ∧
    hat_original_contents σ' hat' = Some ["red"; "red"; "blue"]%string ∧
    (∀ num_balls r σ'',
       draw hat' num_balls σ' = (r, σ'') →
       hat_contents σ'' sample_hat = Some ["red"; "red"; "blue"]%string ∧
       hat_original_contents σ'' sample_hat
       = Some ["red"; "red"; "blue"]%string) ∧
    (∀ num_balls r σ'',
       draw sample_hat num_balls σ' = (r, σ'') →
       hat_contents σ'' hat' = Some ["red"; "red"; "blue"]%string ∧
       hat_original_contents σ'' hat' = Some ["red"; "red"; "blue"]%string).
Proof.
  apply (deepcopy_independent sample_hat sample_state); reflexivity.
Defined.

(** ** Scoring a draw *)

Lemma tally_snoc drawn ball :
  tally (drawn ++ [ball])
  = <[ball := default 0 (tally drawn !! ball) + 1]> (tally drawn).
Proof. unfold tally. by rewrite foldl_app. Qed.

Lemma occurrences_le_length color balls :
  (occurrences color balls ≤ length balls)%nat.
Proof. unfold occurrences. apply length_filter. Qed.

(** X8. The tally of a draw has an entry for exactly the colours that
    were drawn, and the entry is the number of balls of that colour. *)
Theorem tally_lookup drawn_balls color :
  tally drawn_balls !! color =
  if decide (color ∈ drawn_balls)
  then Some (Z.of_nat (occurrences color drawn_balls)) else None.
Proof.
  induction drawn_balls as [|ball drawn IH] using rev_ind.
  - rewrite decide_False by apply not_elem_of_nil. apply lookup_empty.
  - rewrite tally_snoc, occurrences_app, occurrences_cons.
    destruct (decide (ball = color)) as [->|Hne].
    + rewrite lookup_insert_eq, tally_get.
      rewrite decide_True by (apply elem_of_app; right; apply list_elem_of_here).
      f_equal. change (occurrences color []) with 0%nat. lia.
    + rewrite lookup_insert_ne, IH by done.
      destruct (decide (color ∈ drawn)) as [Hin|Hnin].
      * rewrite decide_True by (apply elem_of_app; by left).
        f_equal. change (occurrences color []) with 0%nat. lia.
      * rewrite decide_False; [done|]. rewrite elem_of_app, elem_of_cons.
        intros [?|[?|Hnil]]; [done|done|]. by apply elem_of_nil in Hnil.
Qed.

(** X9. The order in which the balls were drawn plays no part in the
    score: two draws with the same balls are scored alike. *)
Theorem meets_expectations_order_irrelevant expected_balls d d' :
  d ≡ₚ d' →
  meets_expectations expected_balls d = meets_expectations expected_balls d'.
Proof.
  intros Hperm. apply eq_true_iff_eq.
  rewrite !meets_expectations_spec. split; intros Hall color amount Hexp.
  - rewrite <- (occurrences_perm color _ _ Hperm). by apply Hall.
  - rewrite (occurrences_perm color _ _ Hperm). by apply Hall.
Qed.

Lemma meets_expectations_order_irrelevant_witness :
  meets_expectations {[ "red"%string := 1 ]} ["red"; "blue"]%string
  = meets_expectations {[ "red"%string := 1 ]} ["blue"; "red"]%string.
Proof.
  apply (meets_expectations_order_irrelevant {[ "red"%string := 1 ]}
           ["red"; "blue"]%string ["blue"; "red"]%string).
  apply Permutation_swap.
Defined.

(** X10. More balls never hurt: a draw that holds at least as many
    balls of every colour as a successful draw is successful too. *)
Theorem meets_expectations_monotone expected_balls d d' :
  (∀ color, (occurrences color d ≤ occurrences color d')%nat) →
  meets_expectations expected_balls d = true →
  meets_expectations expected_balls d' = true.
Proof.
  rewrite !meets_expectations_spec. intros Hle Hall color amount Hexp.
  specialize (Hall color amount Hexp). specialize (Hle color). lia.
Qed.

Lemma meets_expectations_monotone_witness :
  meets_expectations {[ "red"%string := 1 ]} ["red"; "blue"; "red"]%string
  = true.
Proof.
  apply (meets_expectations_monotone {[ "red"%string := 1 ]}
           ["red"]%string ["red"; "blue"; "red"]%string).
  - intros color. rewrite !occurrences_cons.
    destruct (decide ("red"%string = color)); simpl; lia.
  - reflexivity.
Defined.

Lemma check_items_perm items items' counts :
  items ≡ₚ items' → check_items items counts = check_items items' counts.
Proof.
  induction 1 as [|[c a] l l' _ IH|[c1 a1] [c2 a2] l|l1 l2 l3 _ IH1 _ IH2];
    simpl.
  - done.
  - by rewrite IH.
  - by destruct (default 0 (counts !! c1) <? a1),
                (default 0 (counts !! c2) <? a2).
  - by rewrite IH1.
Qed.

(** X11. The verdict of the checking loop does not depend on the order
    in which it goes through [expected_balls], nor on where it breaks
    off: every listing of the items of the mapping gives the verdict of
    [meets_expectations]. *)
Theorem check_order_irrelevant expected_balls items drawn_balls :
  items ≡ₚ map_to_list expected_balls →
  check_items items (tally drawn_balls)
  = meets_expectations expected_balls drawn_balls.
Proof. intros Hperm. unfold meets_expectations. by apply check_items_perm. Qed.

Lemma check_order_irrelevant_witness :
  check_items [("red"%string, 2); ("green"%string, 1)]
              (tally ["red"; "green"; "red"]%string)
  = meets_expectations {[ "red"%string := 2; "green"%string := 1 ]}
                       ["red"; "green"; "red"]%string.
Proof.
  apply (check_order_irrelevant {[ "red"%string := 2; "green"%string := 1 ]}
           [("red"%string, 2); ("green"%string, 1)]
           ["red"; "green"; "red"]%string).
  vm_compute. apply Permutation_swap.
Defined.

(** ** experiment *)

Lemma draw_from_copy_effect hat num_balls_drawn σ xs :
  is_hat σ hat → hat_contents σ hat = Some xs →
  ∃ drawn σ',
    draw_from_copy hat num_balls_drawn σ = (Return drawn, σ') ∧
    heap σ ⊆ heap σ' ∧ tape σ' = tape σ ∧
    cursor σ' = (cursor σ + generator_calls num_balls_drawn (length xs))%nat ∧
    drawable xs num_balls_drawn drawn.
Proof.
  intros Hhat Hxs.
  destruct (is_hat_inv _ _ Hhat) as (c & o & xs0 & ys & Hh & Hc & Ho).
  assert (xs0 = xs) as ->.
  { apply hat_contents_Some in Hxs as (c2 & o2 & Hh2 & Hc2). congruence. }
  destruct (deepcopy_spec hat σ c o xs ys Hh Hc Ho)
    as (hat' & c' & o' & σ1 & Hcopy & Hsub & Htape & Hcur & Hh' & Hc' & _ & Hnew).
  destruct (draw_effect hat' num_balls_drawn σ1 c' o' xs Hh' Hc')
    as (d & rest & Hdraw & Hperm & _ & Hlen).
  eexists d, _. unfold draw_from_copy. step Hcopy.
  split; [exact Hdraw|]. simpl. split; [|split; [done|split; [by rewrite Hcur|]]].
  - apply map_subseteq_spec. intros l v Hl.
    rewrite lookup_insert_ne by (intros ->; congruence).
    by apply (lookup_weaken (heap σ)).
  - destruct (draw_spec hat' num_balls_drawn σ1 c' o' xs Hh' Hc')
      as (d2 & xs' & σ2 & Hdraw2 & _ & _ & _ & _ & _ & Hall).
    rewrite Hdraw in Hdraw2. injection Hdraw2 as <- _.
    split; [by exists rest|]. split; [done|]. intros Hk. by apply Hall.
Qed.

(** Two runs of the trial loop from one state, with two criteria: the
    draws are the same, so the runs end in one state, and the weaker
    criterion counts at least as many successes. *)
Lemma experiment_loop_pair n hat e1 e2 num_balls_drawn xs :
  ∀ count1 count2 σ,
  is_hat σ hat → hat_contents σ hat = Some xs →
  ∃ count1' count2' σ',
    experiment_loop n hat e1 num_balls_drawn count1 σ = (Return count1', σ') ∧
    experiment_loop n hat e2 num_balls_drawn count2 σ = (Return count2', σ') ∧
    tape σ' = tape σ ∧
    cursor σ' =
      (cursor σ + n * generator_calls num_balls_drawn (length xs))%nat ∧
    ((∀ d, meets_expectations e2 d = true → meets_expectations e1 d = true) →
     count2' - count2 ≤ count1' - count1).
Proof.
  induction n as [|n IH]; intros count1 count2 σ Hhat Hxs.
  - exists count1, count2, σ. simpl. unfold ret.
    split; [done|]. split; [done|]. split; [done|]. split; [lia|]. lia.
  - destruct (draw_from_copy_effect hat num_balls_drawn σ xs Hhat Hxs)
      as (drawn & σ1 & Hd & Hsub & Htape & Hcur & _).
    set (b1 := meets_expectations e1 drawn).
    set (b2 := meets_expectations e2 drawn).
    destruct (IH (if b1 then count1 + 1 else count1)
                 (if b2 then count2 + 1 else count2) σ1)
      as (count1' & count2' & σ' & Hl1 & Hl2 & Htape' & Hcur' & Hmono).
    { by apply (is_hat_weaken σ). }
    { by apply (hat_contents_weaken σ). }
    exists count1', count2', σ'. simpl.
    assert (∀ e count, experiment_body hat e num_balls_drawn count σ
              = (Return (if meets_expectations e drawn
                         then count + 1 else count), σ1)) as Hbody.
    { intros e count. unfold experiment_body. step Hd.
      by destruct (meets_expectations e drawn). }
    split; [by step (Hbody e1 count1)|]. split; [by step (Hbody e2 count2)|].
    split; [congruence|]. split; [lia|].
    intros Hweak. specialize (Hmono Hweak). specialize (Hweak drawn).
    fold b1 b2 in Hweak. destruct b1, b2; try lia; by specialize (Hweak eq_refl).
Qed.

Lemma quotient_mono a1 a2 b :
  0 < b → a1 ≤ a2 →
  (Qred (inject_Z a1 / inject_Z b) <= Qred (inject_Z a2 / inject_Z b))%Q.
Proof.
  intros Hb Ha. rewrite !Qred_correct.
  destruct b as [|p|p]; try lia.
  unfold Qdiv, Qinv, Qmult, Qle, inject_Z. simpl. nia.
Qed.

(** X12. [experiment] calls the generator [generator_calls] times per
    trial, the same in every trial because every trial starts from the
    full hat, and for nothing else: it is [num_experiments] times
    [num_balls_drawn] calls when fewer balls are drawn than the hat
    holds, and none at all otherwise, whatever the outcome. *)
Theorem experiment_generator_calls
    hat expected_balls num_balls_drawn num_experiments σ xs :
  is_hat σ hat → hat_contents σ hat = Some xs →
  ∃ r σ',
    experiment hat expected_balls num_balls_drawn num_experiments σ = (r, σ') ∧
    tape σ' = tape σ ∧
    cursor σ' = (cursor σ + Z.to_nat num_experiments
                            * generator_calls num_balls_drawn (length xs))%nat.
Proof.
  intros Hhat Hxs.
  destruct (experiment_loop_pair (Z.to_nat num_experiments) hat expected_balls
              expected_balls num_balls_drawn xs 0 0 σ Hhat Hxs)
    as (count & _ & σ' & Hloop & _ & Htape & Hcur & _).
  unfold experiment. step Hloop. unfold true_divide, raise, ret.
  destruct (num_experiments =? 0); eauto.
Qed.

Lemma experiment_generator_calls_witness :
  ∃ r σ',
    experiment sample_hat {[ "red"%string := 1 ]} 2 5 sample_state = (r, σ') ∧
    tape σ' = tape sample_state ∧
    cursor σ' = (cursor sample_state + Z.to_nat 5 * 2)%nat.
Proof.
  apply (experiment_generator_calls sample_hat {[ "red"%string := 1 ]} 2 5
           sample_state ["red"; "red"; "blue"]%string);
    [split; vm_compute; eauto | reflexivity].
Defined.

(** X13. A weaker criterion never gives a smaller estimate.  When every
    colour asked for by [e1] is asked for at least as often by [e2],
    then on the same hat and generator state the two calls make the
    same draws, end in the same state, and the estimate for [e1] is at
    least the estimate for [e2]. *)
Theorem experiment_criterion_monotone
    hat e1 e2 num_balls_drawn num_experiments σ :
  is_hat σ hat →
  0 < num_experiments →
  (∀ color a1, e1 !! color = Some a1 →
               ∃ a2, e2 !! color = Some a2 ∧ a1 ≤ a2) →
  ∃ p1 p2 σ',
    experiment hat e1 num_balls_drawn num_experiments σ = (Return p1, σ') ∧
    experiment hat e2 num_balls_drawn num_experiments σ = (Return p2, σ') ∧
    (p2 <= p1)%Q.
Proof.
  intros Hhat Hn Hweak. destruct (Hhat) as [[xs Hxs] _].
  destruct (experiment_loop_pair (Z.to_nat num_experiments) hat e1 e2
              num_balls_drawn xs 0 0 σ Hhat Hxs)
    as (c1 & c2 & σ' & Hl1 & Hl2 & _ & _ & Hmono).
  eexists _, _, σ'. unfold experiment. step Hl1. step Hl2.
  rewrite !true_divide_eq by lia. split; [done|]. split; [done|].
  apply quotient_mono; [done|].
  assert (c2 - 0 ≤ c1 - 0) as Hle; [|lia].
  apply Hmono. intros d. rewrite !meets_expectations_spec.
  intros Hall color a1 He1. destruct (Hweak color a1 He1) as (a2 & He2 & Hle).
  specialize (Hall color a2 He2). lia.
Qed.

Lemma experiment_criterion_monotone_witness :
  ∃ p1 p2 σ',
    experiment sample_hat {[ "red"%string := 1 ]} 2 4 sample_state
      = (Return p1, σ') ∧
    experiment sample_hat {[ "red"%string := 2 ]} 2 4 sample_state
      = (Return p2, σ') ∧
    (p2 <= p1)%Q.
Proof.
  apply (experiment_criterion_monotone sample_hat {[ "red"%string := 1 ]}
           {[ "red"%string := 2 ]} 2 4 sample_state).
  - split; vm_compute; eauto.
  - lia.
  - intros color a1 Hl. apply lookup_singleton_Some in Hl as [<- <-].
    exists 2. split; [reflexivity | lia].
Defined.

Lemma meets_expectations_short expected_balls d color amount :
  expected_balls !! color = Some amount →
  Z.of_nat (length d) < amount →
  meets_expectations expected_balls d = false.
Proof.
  intros Hexp Hshort.
  destruct (meets_expectations expected_balls d) eqn:Hmeets; [|done].
  rewrite meets_expectations_spec in Hmeets.
  specialize (Hmeets color amount Hexp).
  pose proof (occurrences_le_length color d). lia.
Qed.

(** X14. With the empty criterion every trial succeeds: for a positive
    number of trials the estimate is 1, whatever the hat and the draw
    size. *)
Theorem experiment_empty_criterion hat num_balls_drawn num_experiments σ :
  is_hat σ hat →
  0 < num_experiments →
  ∃ σ', experiment hat ∅ num_balls_drawn num_experiments σ = (Return 1%Q, σ').
Proof.
  intros Hhat Hn. destruct (Hhat) as [[xs Hxs] _].
  destruct (experiment_loop_spec (Z.to_nat num_experiments) hat ∅
              num_balls_drawn xs 0 σ Hhat Hxs)
    as (count & σ' & Hloop & _ & _ & _ & Hall).
  exists σ'. unfold experiment. step Hloop.
  rewrite true_divide_eq by lia. rewrite (Hall true).
  - rewrite Z2Nat.id by lia. simpl. by rewrite quotient_one.
  - intros d _. apply meets_expectations_spec. intros color amount Hexp.
    by rewrite lookup_empty in Hexp.
Qed.

Lemma experiment_empty_criterion_witness :
  ∃ σ', experiment sample_hat ∅ 2 3 sample_state = (Return 1%Q, σ').
Proof.
  apply (experiment_empty_criterion sample_hat 2 3 sample_state);
    [split; vm_compute; eauto | lia].
Defined.

(** X15. A negative number of trials is not refused: the loop runs no
    trial, nothing is copied or drawn, the state stays as it is, and
    the result is zero divided by the number of trials, a zero (the
    float [-0.0] in Python, which equals [0.0]; the quotient here has
    one zero). *)
Theorem experiment_negative_trials_zero
    hat expected_balls num_balls_drawn num_experiments σ :
  num_experiments < 0 →
  experiment hat expected_balls num_balls_drawn num_experiments σ
  = (Return 0%Q, σ).
Proof.
  intros Hn. unfold experiment.
  replace (Z.to_nat num_experiments) with 0%nat by lia. simpl.
  unfold ret at 1. unfold bind. rewrite true_divide_eq by lia.
  assert (Qred (inject_Z 0 / inject_Z num_experiments) = 0%Q) as ->; [|done].
  transitivity (Qred 0); [|reflexivity]. apply Qred_complete.
  by destruct num_experiments as [|p|p]; try lia.
Qed.

Lemma experiment_negative_trials_zero_witness :
  experiment sample_hat {[ "red"%string := 1 ]} 2 (-3) sample_state
  = (Return 0%Q, sample_state).
Proof.
  apply (experiment_negative_trials_zero sample_hat {[ "red"%string := 1 ]} 2 (-3)
           sample_state).
  lia.
Defined.

(** X16. Asking for more balls of one colour than are drawn in a trial
    cannot succeed: with a positive number of trials and a non-negative
    draw size below some required count, the estimate is 0. *)
Theorem experiment_requirement_exceeds_draw
    hat expected_balls num_balls_drawn num_experiments σ :
  is_hat σ hat →
  0 < num_experiments →
  0 ≤ num_balls_drawn →
  (∃ color amount, expected_balls !! color = Some amount ∧
                   num_balls_drawn < amount) →
  ∃ σ', experiment hat expected_balls num_balls_drawn num_experiments σ
        = (Return 0%Q, σ').
Proof.
  intros Hhat Hn Hk (color & amount & Hexp & Hfew).
  destruct (Hhat) as [[xs Hxs] _].
  destruct (experiment_loop_spec (Z.to_nat num_experiments) hat expected_balls
              num_balls_drawn xs 0 σ Hhat Hxs)
    as (count & σ' & Hloop & _ & _ & _ & Hall).
  exists σ'. unfold experiment. step Hloop.
  rewrite true_divide_eq by lia. rewrite (Hall false).
  - rewrite Z.add_0_r. by rewrite quotient_zero.
  - intros d (_ & Hlen & _).
    apply (meets_expectations_short _ _ color amount); [done|lia].
Qed.

Lemma experiment_requirement_exceeds_draw_witness :
  ∃ σ', experiment sample_hat {[ "red"%string := 2 ]} 1 3 sample_state
        = (Return 0%Q, σ').
Proof.
  apply (experiment_requirement_exceeds_draw sample_hat
           {[ "red"%string := 2 ]} 1 3 sample_state).
  - split; vm_compute; eauto.
  - lia.
  - lia.
  - exists "red"%string, 2. split; [reflexivity | lia].
Defined.

(** X17. [experiment] never reads [original_contents]: its trials copy
    the hat as it is when the call is made.  After any [draw] on a
    freshly built hat, [original_contents] still holds all the balls,
    but [experiment] goes by the balls that are left in [contents]: a
    criterion that asks for more balls of a colour than are left gets
    the estimate 0, even if the hat was built with enough of them; a
    draw size of at least the number of balls left gives the estimate 1
    as soon as the balls left meet the criterion; and each trial calls
    the generator as a draw from the balls left does. *)
Theorem experiment_uses_current_contents
    kwargs σ0 self σ num_balls expected_balls num_balls_drawn num_experiments :
  Hat_init kwargs σ0 = (Return self, σ) →
  0 < num_experiments →
  ∃ d rest σ1 p σ2,
    draw self num_balls σ = (Return d, σ1) ∧
    d ++ rest ≡ₚ expand kwargs ∧
    hat_contents σ1 self = Some rest ∧
    hat_original_contents σ1 self = Some (expand kwargs) ∧
    experiment self expected_balls num_balls_drawn num_experiments σ1
      = (Return p, σ2) ∧
    hat_contents σ2 self = Some rest ∧
    cursor σ2 = (cursor σ1 + Z.to_nat num_experiments
                             * generator_calls num_balls_drawn (length rest))%nat ∧
    ((∃ color amount, expected_balls !! color = Some amount ∧
                      Z.of_nat (occurrences color rest) < amount) →
     p = 0%Q) ∧
    (Z.of_nat (length rest) ≤ num_balls_drawn →
     (∀ color amount, expected_balls !! color = Some amount →
                      amount ≤ Z.of_nat (occurrences color rest)) →
     p = 1%Q).
Proof.
  intros Hinit Hn.
  destruct (Hat_init_spec kwargs σ0 (Hat_init_Return_inv _ _ _ _ Hinit))
    as (self' & c & o & σ' & Hinit' & _ & _ & _ & Hself & Hc & Ho & Hco).
  rewrite Hinit in Hinit'. injection Hinit' as <- <-.
  destruct (draw_effect self num_balls σ c o (expand kwargs) Hself Hc)
    as (d & rest & Hdraw & Hperm & _ & _).
  match type of Hdraw with _ = (_, ?s) => set (σ1 := s) in * end.
  assert (self ≠ c) as Hsc by (intros ->; congruence).
  assert (hat_contents σ1 self = Some rest) as Hxs1.
  { apply hat_contents_Some. exists c, o. simpl.
    rewrite lookup_insert_ne by done. by rewrite lookup_insert_eq. }
  assert (hat_original_contents σ1 self = Some (expand kwargs)) as Hys1.
  { apply hat_original_contents_Some. exists c, o. simpl.
    by rewrite !lookup_insert_ne. }
  assert (is_hat σ1 self) as Hhat1 by (split; eauto).
  destruct (experiment_loop_spec (Z.to_nat num_experiments) self expected_balls
              num_balls_drawn rest 0 σ1 Hhat1 Hxs1)
    as (count & σ2 & Hloop & Hsub & _ & _ & Hcount).
  destruct (experiment_loop_pair (Z.to_nat num_experiments) self expected_balls
              expected_balls num_balls_drawn rest 0 0 σ1 Hhat1 Hxs1)
    as (count' & _ & σ2' & Hloop' & _ & _ & Hcur & _).
  rewrite Hloop in Hloop'. injection Hloop' as <- <-.
  exists d, rest, σ1, (Qred (inject_Z count / inject_Z num_experiments)), σ2.
  split; [done|]. split; [done|]. split; [done|]. split; [done|].
  split.
  { unfold experiment. step Hloop. by rewrite true_divide_eq by lia. }
  split; [by apply (hat_contents_weaken σ1)|]. split; [done|]. split.
  - intros (color & amount & Hexp & Hfew). rewrite (Hcount false).
    + rewrite Z.add_0_r. by apply quotient_zero.
    + intros d' ((rest' & Hperm') & _).
      destruct (meets_expectations expected_balls d') eqn:Hmeets; [|done].
      rewrite meets_expectations_spec in Hmeets.
      specialize (Hmeets color amount Hexp).
      rewrite <- (occurrences_perm color _ _ Hperm'), occurrences_app in Hfew.
      lia.
  - intros Hlen Henough. rewrite (Hcount true).
    + rewrite Z2Nat.id by lia. simpl. by apply quotient_one.
    + intros d' (_ & _ & Hd'). rewrite (Hd' Hlen).
      by apply meets_expectations_spec.
Qed.

(** [Hat(red=2, blue=1)], two balls drawn and the red one left: with
    draw size 3 the criterion [{"blue": 1}] gets 0, although the hat was
    built with a blue ball. *)
Lemma experiment_uses_current_contents_witness :
  ∃ d rest σ1 p σ2,
    draw sample_hat 2 sample_state = (Return d, σ1) ∧
    d ++ rest ≡ₚ expand sample_kwargs ∧
    hat_contents σ1 sample_hat = Some rest ∧
    hat_original_contents σ1 sample_hat = Some (expand sample_kwargs) ∧
    experiment sample_hat {[ "blue"%string := 1 ]} 3 4 σ1 = (Return p, σ2) ∧
    hat_contents σ2 sample_hat = Some rest ∧
    cursor σ2 = (cursor σ1 + Z.to_nat 4 * generator_calls 3 (length rest))%nat ∧
    ((∃ color amount,
        ({[ "blue"%string := 1 ]} : gmap string Z) !! color = Some amount ∧
        Z.of_nat (occurrences color rest) < amount) →
     p = 0%Q) ∧
    (Z.of_nat (length rest) ≤ 3 →
     (∀ color amount,
        ({[ "blue"%string := 1 ]} : gmap string Z) !! color = Some amount →
        amount ≤ Z.of_nat (occurrences color rest)) →
     p = 1%Q).
Proof.
  apply (experiment_uses_current_contents sample_kwargs (empty_state (λ n, n))
           sample_hat sample_state 2 {[ "blue"%string := 1 ]} 3 4);
    [reflexivity | lia].
Defined.

Example experiment_after_draw :
  fst (experiment sample_hat {[ "blue"%string := 1 ]} 3 4
                  (snd (draw sample_hat 2 sample_state)))
  = Return 0%Q ∧
  fst (experiment sample_hat {[ "blue"%string := 1 ]} 3 4 sample_state)
  = Return 1%Q.
Proof. split; reflexivity. Qed.

(** ** main *)

(** X18. [main] raises nothing, whatever the generator gives and
    whatever objects exist already: it leaves those objects alone, calls
    the generator five times in each of its 2000 trials, and prints a
    number of successes out of 2000, a value between 0 and 1. *)
Theorem main_completes σ :
  ∃ p σ',
    main σ = (Return p, σ') ∧
    (∃ successes, 0 ≤ successes ≤ 2000 ∧
                  p = Qred (inject_Z successes / inject_Z 2000)) ∧
    (0 <= p <= 1)%Q ∧
    heap σ ⊆ heap σ' ∧ tape σ' = tape σ ∧
    cursor σ' = (cursor σ + 2000 * 5)%nat.
Proof.
  unfold main.
  set (kwargs := [("black"%string, 6); ("red"%string, 4); ("green"%string, 3)]).
  set (e := ({[ "red"%string := 2; "green"%string := 1 ]} : gmap string Z)).
  assert ("self"%string ∉ kwargs.*1) as Hkw
    by (apply (bool_decide_unpack _); vm_compute; exact I).
  destruct (Hat_init_spec kwargs σ Hkw)
    as (hat & c & o & σ1 & Hinit & Hsub1 & Htape1 & Hcur1 & Hh & Hc & Ho & _).
  step Hinit.
  assert (hat_contents σ1 hat = Some (expand kwargs)) as Hxs
    by (apply hat_contents_Some; by exists c, o).
  assert (is_hat σ1 hat) as Hhat.
  { split; [by eauto|]. exists (expand kwargs).
    apply hat_original_contents_Some. by exists c, o. }
  destruct (experiment_loop_spec (Z.to_nat 2000) hat e 5 (expand kwargs) 0 σ1
              Hhat Hxs)
    as (count & σ' & Hloop & Hsub & _ & Hbound & _).
  destruct (experiment_loop_pair (Z.to_nat 2000) hat e e 5 (expand kwargs) 0 0 σ1
              Hhat Hxs)
    as (count' & _ & σ'' & Hloop' & _ & Htape & Hcur & _).
  rewrite Hloop in Hloop'. injection Hloop' as <- <-.
  exists (Qred (inject_Z count / inject_Z 2000)), σ'.
  assert (experiment hat e 5 2000 σ1
          = (Return (Qred (inject_Z count / inject_Z 2000)), σ')) as Hexp.
  { unfold experiment. step Hloop. by rewrite true_divide_eq by lia. }
  split; [by step Hexp|].
  split; [exists count; split; [lia|done]|].
  split; [apply quotient_bounds; lia|].
  split; [by etrans|]. split; [congruence|].
  rewrite Hcur, Hcur1. change (generator_calls 5 (length (expand kwargs))) with 5%nat.
  lia.
Qed.
